(** * Folder synchronizer: a shallow embedding of [synchronizer.py]

    The development follows the source file top-down:

    - [PyStr]: the Python string and [os.path] primitives the program
      and its library calls use ([str.replace], [str.split],
      [os.path.join], [os.path.split], [os.path.normpath]);
    - [PyFloat]: what [time.sleep] accepts;
    - the filesystem the program reads and mutates ([os.path.exists],
      [os.path.abspath], [os.walk], [shutil.copy], [shutil.copytree],
      [shutil.rmtree], [os.remove]);
    - the [Synchronizer] object with its two aliased state dictionaries,
      and its methods, in a state-and-exception monad;
    - the properties of the specification, stated over these definitions. *)

From Stdlib Require Import Ascii.
From Corelib Require PrimFloat.
From stdpp Require Import gmap strings list fin_maps.


(** ** Python strings and [os.path] *)

Module PyStr.

(** [s.startswith(p)] *)
Definition startswith (s p : string) : bool := String.prefix p s.

(** [s.endswith("/")] *)
Fixpoint endswith_sep (s : string) : bool :=
  match s with
  | EmptyString => false
  | String c EmptyString => bool_decide (c = "/"%char)
  | String _ s' => endswith_sep s'
  end.

(** The scanning loop of [str.replace] for a non-empty pattern: the
    leftmost occurrence is replaced, the scan resumes after it.
    [skip] counts the characters of a matched occurrence still to be
    passed over. *)
Fixpoint replace_scan (old new : string) (skip : nat) (s : string) : string :=
  match s with
  | EmptyString => EmptyString
  | String c s' =>
      match skip with
      | S k => replace_scan old new k s'
      | O =>
          if String.prefix old s
          then new +:+ replace_scan old new (String.length old - 1) s'
          else String c (replace_scan old new 0 s')
      end
  end.

(** [str.replace] with an empty pattern puts [new] before every
    character and at the end. *)
Fixpoint replace_empty (new s : string) : string :=
  match s with
  | EmptyString => new
  | String c s' => new +:+ String c (replace_empty new s')
  end.

(** [s.replace(old, new)]: every non-overlapping occurrence, left to
    right. *)
Definition replace (s old new : string) : string :=
  match old with
  | EmptyString => replace_empty new s
  | _ => replace_scan old new 0 s
  end.

(** [s.split("/")] *)
Fixpoint split_sep (s : string) : list string :=
  match s with
  | EmptyString => [EmptyString]
  | String c s' =>
      if bool_decide (c = "/"%char) then EmptyString :: split_sep s'
      else match split_sep s' with
           | [] => [String c EmptyString]
           | h :: t => String c h :: t
           end
  end.

(** [s.split("/")[-1]] *)
Definition last_segment (s : string) : string :=
  List.last (split_sep s) EmptyString.

(** [os.path.join(a, b)] of [posixpath]. *)
Definition join (a b : string) : string :=
  if startswith b "/" then b
  else if bool_decide (a = "") || endswith_sep a then a +:+ b
  else a +:+ "/" +:+ b.

(** [s.rstrip("/")] *)
Fixpoint rstrip_sep (s : string) : string :=
  match s with
  | EmptyString => EmptyString
  | String c s' =>
      match rstrip_sep s' with
      | EmptyString =>
          if bool_decide (c = "/"%char) then EmptyString
          else String c EmptyString
      | r => String c r
      end
  end.

(** [s == "/" * len(s)] *)
Fixpoint all_sep (s : string) : bool :=
  match s with
  | EmptyString => true
  | String c s' => bool_decide (c = "/"%char) && all_sep s'
  end.

(** [os.path.split(p)] of [posixpath]: the part before the last
    separator, without its trailing separators unless it is nothing
    else, and the part after it. *)
Definition split (p : string) : string * string :=
  let tail := last_segment p in
  let head := String.substring 0 (String.length p - String.length tail) p in
  (if all_sep head then head else rstrip_sep head, tail).

(** The number of leading separators [os.path.normpath] keeps: two
    stay two, three or more become one. *)
Definition initial_slashes (s : string) : nat :=
  if startswith s "//" && negb (startswith s "///") then 2
  else if startswith s "/" then 1
  else 0.

(** One round of the loop of [os.path.normpath] over the segments. *)
Definition norm_step (rooted : bool) (acc : list string) (c : string)
  : list string :=
  if bool_decide (c = "" ∨ c = ".") then acc
  else if bool_decide (c ≠ "..")
          || (negb rooted && bool_decide (acc = []))
          || bool_decide (last acc = Some "..")
       then acc ++ [c]
       else removelast acc.

(** [os.path.normpath(p)] of [posixpath]: purely lexical. *)
Definition normpath (p : string) : string :=
  if bool_decide (p = "") then "."
  else
    let n := initial_slashes p in
    let comps := foldl (norm_step (bool_decide (n ≠ 0))) [] (split_sep p) in
    let r := String.concat "" (replicate n "/") +:+ String.concat "/" comps in
    if bool_decide (r = "") then "." else r.

Definition isabs (s : string) : bool := startswith s "/".

End PyStr.

(** ** Exceptions *)

Inductive exn :=
  | SystemExit | ValueError | TypeError | NameError | SyntaxError
  | ZeroDivisionError | OverflowError | OSError | FileNotFoundError
  | FileExistsError | NotADirectoryError | IsADirectoryError | SameFileError
  | ShutilError.

Global Instance exn_eq_dec : EqDecision exn.
Proof. solve_decision. Defined.

(** ** Python floats

    A Python [float] is a binary64 number. *)

Definition float : Set := PrimFloat.float.

Module PyFloat.
Import PrimFloat.

(** The number the attribute [interval] starts with. *)
Definition zero : float := 0%float.

(** The number of nanoseconds [time.sleep] converts its argument to,
    before rounding to an integer. *)
Definition nanoseconds (seconds : float) : float := (seconds * 1e9)%float.

Definition negative (seconds : float) : bool := (seconds <? 0)%float.

(** What [time.sleep(seconds)] raises before it sleeps (CPython 3.11
    and later): [ValueError] for a NaN, [OverflowError] for a number of
    nanoseconds outside the range of a 64-bit integer, [ValueError] for
    a negative number. Rounding the nanoseconds away from zero changes
    none of the three tests. *)
Definition sleep_error (seconds : float) : option exn :=
  if is_nan seconds then Some ValueError
  else if (nanoseconds seconds <? -0x1p63)%float
          || (0x1p63 <=? nanoseconds seconds)%float
       then Some OverflowError
  else if negative seconds then Some ValueError
  else None.

End PyFloat.

(** ** The Python runtime

    What the interpreter and the operating system decide and the program
    does not: the value of [float(eval(s))], and the order in which a
    [set] and a directory listing are iterated. *)

Class Runtime := {
  (** [float(eval(s))]: the number, or the exception raised. *)
  float_eval : string → exn + float;
  (** the order in which the elements of a set, or the names of a
      directory, come out *)
  iteration : list string → list string;
  iteration_perm : ∀ l, iteration l ≡ₚ l;
}.

(** ** Data model *)

(** A filesystem object: a regular file with its content, or a
    directory. The disk maps the component list of an absolute path to
    the object there. *)
Inductive entry := File (data : string) | Dir.

Global Instance entry_eq_dec : EqDecision entry.
Proof. solve_decision. Defined.

(** [object_type]: the key ['folders'] or ['files'] of a state dict. *)
Inductive kind := folders | files.

Global Instance kind_eq_dec : EqDecision kind.
Proof. solve_decision. Defined.

(** A state dict [{'folders': set(), 'files': set()}]. The two sets are
    created with the dict and never shared between dicts, so the dict
    is the unit of aliasing. *)
Record folder_state := FolderState {
  st_folders : gset string;
  st_files : gset string;
}.

Definition empty_state : folder_state := FolderState ∅ ∅.

Global Instance folder_state_inhabited : Inhabited folder_state :=
  populate empty_state.

Definition st_get (k : kind) (d : folder_state) : gset string :=
  match k with folders => st_folders d | files => st_files d end.

(** [d[k].add(p)] *)
Definition st_add (k : kind) (p : string) (d : folder_state) : folder_state :=
  match k with
  | folders => FolderState ({[p]} ∪ st_folders d) (st_files d)
  | files => FolderState (st_folders d) ({[p]} ∪ st_files d)
  end.

(** The messages handed to the logger. *)
Inductive message :=
  | MsgNew (k : kind) (object_name replica_absolute_path : string)
  | MsgDeleted (k : kind) (name replica_absolute_path : string)
  | MsgRunning
  | MsgStopped
  | MsgUsage
  | MsgInterval
  | MsgNoDirectory (argument : string)
  | MsgHomeDirectory (argument : string).

Section Synchronizer.
Context `{RT : Runtime}.

Inductive event :=
  | LogInfo (m : message)
  | LogError (m : message)
  | Sleep (seconds : float).

(** The attributes of the [Synchronizer] instance, the store of state
    dicts its two state attributes point into, and the environment:
    disk, working directory, and what was logged and slept so far. *)
Record world := World {
  source_folder_state : nat;
  replica_folder_state : nat;
  source_directory_path : string;
  replica_directory_path : string;
  interval : float;
  log_file_path : string;
  heap : list folder_state;
  disk : gmap (list string) entry;
  cwd : list string;
  trace : list event;
}.

Definition set_source_folder_state (l : nat) (w : world) : world :=
  World l (replica_folder_state w) (source_directory_path w)
    (replica_directory_path w) (interval w) (log_file_path w) (heap w)
    (disk w) (cwd w) (trace w).

Definition set_replica_folder_state (l : nat) (w : world) : world :=
  World (source_folder_state w) l (source_directory_path w)
    (replica_directory_path w) (interval w) (log_file_path w) (heap w)
    (disk w) (cwd w) (trace w).

Definition set_heap (h : list folder_state) (w : world) : world :=
  World (source_folder_state w) (replica_folder_state w)
    (source_directory_path w) (replica_directory_path w) (interval w)
    (log_file_path w) h (disk w) (cwd w) (trace w).

Definition set_disk (d : gmap (list string) entry) (w : world) : world :=
  World (source_folder_state w) (replica_folder_state w)
    (source_directory_path w) (replica_directory_path w) (interval w)
    (log_file_path w) (heap w) d (cwd w) (trace w).

Definition set_trace (t : list event) (w : world) : world :=
  World (source_folder_state w) (replica_folder_state w)
    (source_directory_path w) (replica_directory_path w) (interval w)
    (log_file_path w) (heap w) (disk w) (cwd w) t.

(** *** The monad: state, uncaught exceptions, and fuel for the walk *)

Inductive outcome (A : Type) :=
  | Ok (a : A) (w : world)
  | Raised (e : exn) (w : world)
  | OutOfFuel.
Global Arguments Ok {A} a w.
Global Arguments Raised {A} e w.
Global Arguments OutOfFuel {A}.

Definition M (A : Type) : Type := world → outcome A.

Definition ret {A} (a : A) : M A := λ w, Ok a w.

Definition bind {A B} (m : M A) (k : A → M B) : M B :=
  λ w, match m w with
       | Ok a w' => k a w'
       | Raised e w' => Raised e w'
       | OutOfFuel => OutOfFuel
       end.

Definition raise {A} (e : exn) : M A := λ w, Raised e w.
Definition gets {A} (f : world → A) : M A := λ w, Ok (f w) w.
Definition modify (f : world → world) : M unit := λ w, Ok tt (f w).

Notation "x ←' m ; k" := (bind m (λ x, k))
  (at level 20, m at level 100, k at level 200, only parsing, right associativity).
Notation "m ;;' k" := (bind m (λ _, k))
  (at level 100, k at level 200, only parsing, right associativity).

(** [for x in l: body(x)] *)
Fixpoint for_each {A} (l : list A) (body : A → M unit) : M unit :=
  match l with
  | [] => ret tt
  | x :: l' => body x ;;' for_each l' body
  end.

(** [itertools.zip_longest] with its default fill value [None]. *)
Fixpoint zip_longest {A B} (l1 : list A) (l2 : list B)
  : list (option A * option B) :=
  match l1 with
  | [] => map (λ y, (None, Some y)) l2
  | x :: l1' =>
      match l2 with
      | [] => (Some x, None) :: zip_longest l1' []
      | y :: l2' => (Some x, Some y) :: zip_longest l1' l2'
      end
  end.

(** Truth value of [None] and of a string. *)
Definition truthy (o : option string) : option string :=
  match o with
  | Some s => if bool_decide (s = "") then None else Some s
  | None => None
  end.

(** *** The object store *)

(** The dict a reference points to. *)
Definition deref (l : nat) : M folder_state := gets (λ w, heap w !!! l).

(** [ref[k].add(p)]: in place, seen through every alias of [ref]. *)
Definition set_add (l : nat) (k : kind) (p : string) : M unit :=
  modify (λ w, set_heap (<[l := st_add k p (heap w !!! l)]> (heap w)) w).

(** A dict literal: a new object. *)
Definition alloc (d : folder_state) : M nat :=
  λ w, Ok (length (heap w)) (set_heap (heap w ++ [d]) w).

(** *** Logging and sleeping *)

Definition logger_info (m : message) : M unit :=
  modify (λ w, set_trace (trace w ++ [LogInfo m]) w).

Definition logger_error (m : message) : M unit :=
  modify (λ w, set_trace (trace w ++ [LogError m]) w).

(** [time.sleep(seconds)]: raises for a number it does not accept;
    otherwise the sleep is recorded. *)
Definition time_sleep (seconds : float) : M unit :=
  match PyFloat.sleep_error seconds with
  | Some e => raise e
  | None => modify (λ w, set_trace (trace w ++ [Sleep seconds]) w)
  end.

(** [sys.exit()] *)
Definition sys_exit {A} : M A := raise SystemExit.

(** [try: m / except e0: pass] *)
Definition except_pass (e0 : exn) (m : M unit) : M unit :=
  λ w, match m w with
       | Raised e w' => if bool_decide (e = e0) then Ok tt w' else Raised e w'
       | r => r
       end.

(** *** The filesystem *)

(** Path resolution as the kernel does it on a disk without links,
    from directory [cur] on. An empty component and ["."] stay where
    they are, [".."] goes to the parent, and a name goes to the entry of
    that name, which must be an existing directory unless the name is
    the last component: what the last name stands for need not exist. *)
Fixpoint lookup (d : gmap (list string) entry) (cur : list string)
    (segments : list string) : exn + list string :=
  match segments with
  | [] => inr cur
  | c :: rest =>
      if bool_decide (c = "" ∨ c = ".") then lookup d cur rest
      else if bool_decide (c = "..") then lookup d (removelast cur) rest
      else
        match rest with
        | [] => inr (cur ++ [c])
        | _ =>
            match d !! (cur ++ [c]) with
            | None => inl FileNotFoundError
            | Some (File _) => inl NotADirectoryError
            | Some Dir => lookup d (cur ++ [c]) rest
            end
        end
  end.

(** The key of the disk a path string names, or the error of the
    resolution. The empty string names nothing. A relative path starts
    at the working directory. *)
Definition resolve (w : world) (s : string) : exn + list string :=
  if bool_decide (s = "") then inl FileNotFoundError
  else lookup (disk w) (if PyStr.isabs s then [] else cwd w) (PyStr.split_sep s).

(** The path ends, trailing separators apart, in ["."] or [".."]: it
    names a directory by one of its two standing entries. *)
Definition dotted (s : string) : bool :=
  let last := PyStr.last_segment (PyStr.rstrip_sep s) in
  bool_decide (last = "." ∨ last = "..").

(** A new entry can be made at key [cp]: nothing is there, and its
    parent is a directory that is. *)
Definition vacant (w : world) (cp : list string) : exn + unit :=
  match disk w !! cp with
  | Some _ => inl FileExistsError
  | None =>
      match disk w !! removelast cp with
      | Some Dir => inr tt
      | Some (File _) => inl NotADirectoryError
      | None => inl FileNotFoundError
      end
  end.

Definition stat (w : world) (s : string) : option entry :=
  match resolve w s with
  | inr p => disk w !! p
  | inl _ => None
  end.

Definition path_exists (w : world) (s : string) : bool :=
  bool_decide (is_Some (stat w s)).

(** [os.path.exists(s)] *)
Definition os_path_exists (s : string) : M bool := gets (λ w, path_exists w s).

(** [os.getcwd()] *)
Definition getcwd (w : world) : string := "/" +:+ String.concat "/" (cwd w).

(** [os.path.abspath(s)]: lexical, the disk is not looked at. *)
Definition abspath (w : world) (s : string) : string :=
  PyStr.normpath (if PyStr.isabs s then s else PyStr.join (getcwd w) s).

Definition is_dir (e : entry) : bool :=
  match e with Dir => true | File _ => false end.

Fixpoint strip_prefix (p k : list string) : option (list string) :=
  match p with
  | [] => Some k
  | x :: p' =>
      match k with
      | [] => None
      | y :: k' => if bool_decide (x = y) then strip_prefix p' k' else None
      end
  end.

(** The name under which key [k] is an immediate child of [p]. *)
Definition child_of (p k : list string) : option string :=
  match strip_prefix p k with
  | Some [n] => Some n
  | _ => None
  end.

(** The names of the sub-directories ([want_dir]) or of the other
    entries of directory [p]. *)
Definition listing (d : gmap (list string) entry) (p : list string)
    (want_dir : bool) : list string :=
  iteration
    (omap (λ ke : list string * entry,
             if bool_decide (is_dir ke.2 = want_dir) then child_of p ke.1
             else None)
          (map_to_list d)).

(** [os.scandir(top)], its entries split as [os.walk] splits them. *)
Definition scandir (w : world) (top : string)
  : exn + (list string * list string) :=
  match resolve w top with
  | inl e => inl e
  | inr p =>
      match disk w !! p with
      | None => inl FileNotFoundError
      | Some (File _) => inl NotADirectoryError
      | Some Dir => inr (listing (disk w) p true, listing (disk w) p false)
      end
  end.

(** What [os.walk] yields for one directory: its path, the names of
    its sub-directories, the names of its other entries. *)
Definition yielded : Type := string * list string * list string.

(** [for top, dirs, nondirs in os.walk(directory): body]. The generator
    is lazy: a directory is listed when the loop asks for it, after the
    body has run for the directories before it. Errors of the listing
    are ignored ([onerror] is [None]). [fuel] bounds the number of
    directories visited; the result is what was yielded, in order. *)
Fixpoint os_walk_for (fuel : nat) (stack : list string)
    (body : string → list string → list string → M unit) {struct fuel}
  : M (list yielded) :=
  match stack with
  | [] => ret []
  | top :: stack' =>
      match fuel with
      | O => λ _, OutOfFuel
      | S fuel' =>
          sc ←' gets (λ w, scandir w top);
          match sc with
          | inl _ => os_walk_for fuel' stack' body
          | inr (dirs, nondirs) =>
              body top dirs nondirs ;;'
              rest ←' os_walk_for fuel' (map (PyStr.join top) dirs ++ stack') body;
              ret ((top, dirs, nondirs) :: rest)
          end
      end
  end.

(** [os.mkdir(name)]: trailing separators do not count. *)
Definition os_mkdir (name : string) : M unit :=
  λ w,
    let p := PyStr.rstrip_sep name in
    match resolve w (if bool_decide (p = "") then name else p) with
    | inl e => Raised e w
    | inr cp =>
        if dotted name then Raised FileExistsError w
        else
          match vacant w cp with
          | inl e => Raised e w
          | inr _ => Ok tt (set_disk (<[cp := Dir]> (disk w)) w)
          end
    end.

(** [os.makedirs(name)], with [exist_ok] false: the directories
    missing on the way are made first, from the outermost on. [fuel]
    bounds the depth of the recursion; the length of [name] is
    enough. *)
Fixpoint os_makedirs (fuel : nat) (name : string) : M unit :=
  match fuel with
  | O => λ _, OutOfFuel
  | S fuel' =>
      let ht := PyStr.split name in
      let ht := if bool_decide (ht.2 = "") then PyStr.split ht.1 else ht in
      present ←' os_path_exists ht.1;
      if bool_decide (ht.1 ≠ "") && bool_decide (ht.2 ≠ "") && negb present
      then
        except_pass FileExistsError (os_makedirs fuel' ht.1) ;;'
        if bool_decide (ht.2 = ".") then ret tt else os_mkdir name
      else os_mkdir name
  end.

(** Every object at or below [cs] in [from], put at the same place
    below [cd] in [acc]. *)
Definition graft (cs cd : list string) (from acc : gmap (list string) entry)
  : gmap (list string) entry :=
  foldr (λ (ke : list string * entry) acc,
           match strip_prefix cs ke.1 with
           | Some r => <[cd ++ r := ke.2]> acc
           | None => acc
           end)
        acc (map_to_list from).

(** The destination [cd] lies two levels or more below the source
    [cs], through a directory of the source. *)
Definition descends (d : gmap (list string) entry) (cs cd : list string)
  : bool :=
  match strip_prefix cs cd with
  | Some (a :: _ :: _) => bool_decide (d !! (cs ++ [a]) = Some Dir)
  | _ => false
  end.

(** [shutil.copytree(src, dst)]. The source is listed, the destination
    is made with [os.makedirs], and every entry listed is copied into
    it, directories by the same procedure. A sub-directory is listed
    when its turn comes; what it holds then is what it held at the
    start, unless the destination was made inside it. In that case
    ([descends]) the library copies its own output, level after level,
    until the interpreter or the system stops it: the model gives no
    outcome, as for a walk out of fuel. It gives none either when the
    destination was there before, or holds something once it is made,
    which takes a destination that ends in ["/."] behind a [".."], or a
    disk with an object in a directory that is not there. Otherwise the
    destination is new and empty, and gets what was at and below the
    source. *)
Definition shutil_copytree (src dst : string) : M unit :=
  λ w,
    match resolve w src with
    | inl e => Raised e w
    | inr cs =>
        match disk w !! cs with
        | None => Raised FileNotFoundError w
        | Some (File _) => Raised NotADirectoryError w
        | Some Dir =>
            match os_makedirs (S (String.length dst)) dst w with
            | Ok _ w1 =>
                match resolve w1 dst with
                | inl e => Raised e w1
                | inr cd =>
                    if bool_decide
                         (disk w !! cd = None ∧
                          filter (λ ke : list string * entry,
                                    is_Some (strip_prefix cd ke.1) ∧ ke.1 ≠ cd)
                                 (disk w1) = ∅)
                       && negb (descends (disk w) cs cd)
                    then Ok tt (set_disk (graft cs cd (disk w) (disk w1)) w1)
                    else OutOfFuel
                end
            | Raised e w1 => Raised e w1
            | OutOfFuel => OutOfFuel
            end
        end
    end.

(** [os.path.samefile(a, b)], [False] when one of them cannot be
    examined, as [shutil] takes it. *)
Definition samefile (w : world) (a b : string) : bool :=
  match resolve w a, resolve w b with
  | inr ka, inr kb => bool_decide (ka = kb ∧ is_Some (disk w !! ka))
  | _, _ => false
  end.

(** Opening [path] for writing: the key of the file to write, or the
    error. With a trailing separator the call fails, with
    [IsADirectoryError] when the path before the separator can be
    resolved. *)
Definition writable (w : world) (path : string) : exn + list string :=
  let p := PyStr.rstrip_sep path in
  match resolve w (if bool_decide (p = "") then path else p) with
  | inl e => inl e
  | inr cp =>
      if PyStr.endswith_sep path || dotted path then inl IsADirectoryError
      else
        match disk w !! cp with
        | Some Dir => inl IsADirectoryError
        | Some (File _) => inr cp
        | None =>
            match vacant w cp with
            | inl e => inl e
            | inr _ => inr cp
            end
        end
  end.

(** [shutil.copy(src, dst)]: into [dst] when it is a directory; the
    source is opened for reading, then the destination for writing,
    where [IsADirectoryError] for a destination that does not exist is
    turned into [FileNotFoundError]. *)
Definition shutil_copy (src dst : string) : M unit :=
  λ w,
    let dst' :=
      if bool_decide (stat w dst = Some Dir)
      then PyStr.join dst (PyStr.last_segment src) else dst in
    if samefile w src dst' then Raised SameFileError w
    else
      match resolve w src with
      | inl e => Raised e w
      | inr cs =>
          match disk w !! cs with
          | None => Raised FileNotFoundError w
          | Some Dir => Raised IsADirectoryError w
          | Some (File c) =>
              match writable w dst' with
              | inl e =>
                  if bool_decide (e = IsADirectoryError)
                     && negb (path_exists w dst')
                  then Raised FileNotFoundError w
                  else Raised e w
              | inr cd => Ok tt (set_disk (<[cd := File c]> (disk w)) w)
              end
          end
      end.

(** [os.remove(p)] *)
Definition os_remove (p : string) : M unit :=
  λ w,
    match resolve w p with
    | inl e => Raised e w
    | inr cp =>
        match disk w !! cp with
        | None => Raised FileNotFoundError w
        | Some Dir => Raised IsADirectoryError w
        | Some (File _) => Ok tt (set_disk (delete cp (disk w)) w)
        end
    end.

(** [shutil.rmtree(p)]: what is below the directory is removed, then
    the directory itself, by [os.rmdir(p)]. This last call fails for a
    path that ends in ["."] or [".."]: with the error of the resolution
    when the path cannot be resolved any more, with [OSError]
    otherwise. *)
Definition shutil_rmtree (p : string) : M unit :=
  λ w,
    match resolve w p with
    | inl e => Raised e w
    | inr cp =>
        match disk w !! cp with
        | None => Raised FileNotFoundError w
        | Some (File _) => Raised NotADirectoryError w
        | Some Dir =>
            if dotted p then
              let w' :=
                set_disk
                  (filter (λ ke : list string * entry,
                             strip_prefix cp ke.1 = None ∨ ke.1 = cp)
                          (disk w)) w in
              Raised (match resolve w' p with
                      | inl e => e
                      | inr _ => OSError
                      end) w'
            else
              Ok tt (set_disk
                       (filter (λ ke : list string * entry,
                                  strip_prefix cp ke.1 = None) (disk w)) w)
        end
    end.

(** [logging.FileHandler(filename)]: the absolute path of [filename]
    is opened for appending, and the file is created when it is not
    there. What is written to it is not tracked. *)
Definition open_append (filename : string) : M unit :=
  λ w,
    match writable w (abspath w filename) with
    | inl e => Raised e w
    | inr cp =>
        match disk w !! cp with
        | Some _ => Ok tt w
        | None => Ok tt (set_disk (<[cp := File ""]> (disk w)) w)
        end
    end.

(** ** The methods of [Synchronizer] *)

(** [get_absolute_path]: a replica path, in the namespace of the source. *)
Definition get_absolute_path (directory_path object_name : string) : M string :=
  rep ←' gets replica_directory_path;
  src ←' gets source_directory_path;
  ret (PyStr.replace (PyStr.join directory_path object_name) rep src).

(** [make_copy] *)
Definition make_copy (directory_path object_name : string)
    (object_type : kind) : M unit :=
  src ←' gets source_directory_path;
  rep ←' gets replica_directory_path;
  let path_abs := PyStr.join directory_path object_name in
  let replica_absolute_path := PyStr.replace path_abs src rep in
  present ←' os_path_exists replica_absolute_path;
  (if negb present then
     r ←' gets replica_folder_state;
     set_add r object_type path_abs ;;'
     match object_type with
     | folders =>
         shutil_copytree path_abs replica_absolute_path ;;'
         logger_info (MsgNew folders object_name replica_absolute_path)
     | files =>
         shutil_copy path_abs replica_absolute_path ;;'
         logger_info (MsgNew files object_name replica_absolute_path)
     end
   else ret tt) ;;'
  s ←' gets source_folder_state;
  set_add s object_type path_abs.

(** [delete_files] *)
Definition delete_files (directory_object : string) (object_type : kind)
  : M unit :=
  src ←' gets source_directory_path;
  rep ←' gets replica_directory_path;
  let replica_absolute_path := PyStr.replace directory_object src rep in
  present ←' os_path_exists replica_absolute_path;
  if present then
    match object_type with
    | folders =>
        shutil_rmtree replica_absolute_path ;;'
        logger_info (MsgDeleted folders (PyStr.last_segment directory_object)
                       replica_absolute_path)
    | files =>
        os_remove replica_absolute_path ;;'
        logger_info (MsgDeleted files (PyStr.last_segment directory_object)
                       replica_absolute_path)
    end
  else ret tt.

(** [if x: act(x)] for [x] a string or [None]. *)
Definition when_truthy (o : option string) (act : string → M unit) : M unit :=
  match truthy o with
  | Some x => act x
  | None => ret tt
  end.

(** The body of the walk loop of [check_folder_state], for one
    directory of the walk. *)
Definition walk_body (folder_state : nat) (state_only : bool)
    (directory_path : string) (folders_in_directory files_in_directory : list string)
  : M unit :=
  for_each (zip_longest folders_in_directory files_in_directory)
    (λ '(folder, file),
       if state_only then
         when_truthy folder (λ folder,
           p ←' get_absolute_path directory_path folder;
           set_add folder_state folders p) ;;'
         when_truthy file (λ file,
           p ←' get_absolute_path directory_path file;
           set_add folder_state files p)
       else
         when_truthy folder (λ folder, make_copy directory_path folder folders) ;;'
         when_truthy file (λ file, make_copy directory_path file files)).

(** The two sets computed after the walk. *)
Definition deleted (k : kind) : M (gset string) :=
  r ←' gets replica_folder_state;
  s ←' gets source_folder_state;
  rs ←' deref r;
  ss ←' deref s;
  ret (st_get k rs ∖ st_get k ss).

(** The deletion loop. *)
Definition delete_loop (deleted_folders deleted_files : gset string) : M unit :=
  for_each (zip_longest (iteration (elements deleted_folders))
                        (iteration (elements deleted_files)))
    (λ '(folder, file),
       when_truthy folder (λ folder, delete_files folder folders) ;;'
       when_truthy file (λ file, delete_files file files)).

(** The two assignments that end [check_folder_state]. *)
Definition rotate : M unit :=
  s ←' gets source_folder_state;
  modify (set_replica_folder_state s) ;;'
  l ←' alloc empty_state;
  modify (set_source_folder_state l).

(** [check_folder_state] *)
Definition check_folder_state (fuel : nat) (directory : string)
    (folder_state : nat) (state_only : bool) : M unit :=
  os_walk_for fuel [directory] (walk_body folder_state state_only) ;;'
  deleted_folders ←' deleted folders;
  deleted_files ←' deleted files;
  delete_loop deleted_folders deleted_files ;;'
  rotate.

(** [create_log_file] *)
Definition create_log_file : M unit :=
  p ←' gets log_file_path;
  open_append (PyStr.join p "folder_synchronizer.log").

(** The exceptions the [try] around [float(eval(argument))] catches. *)
Definition interval_caught (e : exn) : bool :=
  bool_decide (e = ValueError ∨ e = TypeError ∨ e = NameError).

(** The round of the loop of [check_arguments] for position 2; the
    result is the value stored back into [arguments[2]]. *)
Definition check_interval (argument : string) : M float :=
  match float_eval argument with
  | inr x => ret x
  | inl e =>
      if interval_caught e then logger_error MsgInterval ;;' sys_exit
      else raise e
  end.

(** A round of the loop for another position. *)
Definition check_directory (position : nat) (argument : string) : M unit :=
  present ←' os_path_exists argument;
  if negb present then
    logger_error (MsgNoDirectory argument) ;;' sys_exit
  else
    here ←' gets (λ w, bool_decide (abspath w argument = getcwd w));
    if here && negb (bool_decide (position = 3)) then
      logger_error (MsgHomeDirectory argument) ;;' sys_exit
    else ret tt.

(** [check_arguments], on [sys.argv[1:]]; the loop over the four
    positions is written out. *)
Definition check_arguments (arguments : list string)
  : M (string * string * float * string) :=
  match arguments with
  | [a0; a1; a2; a3] =>
      check_directory 0 a0 ;;'
      check_directory 1 a1 ;;'
      x ←' check_interval a2;
      check_directory 3 a3 ;;'
      ret (a0, a1, x, a3)
  | _ => logger_error MsgUsage ;;' sys_exit
  end.

(** [set_arguments]: the chained assignment makes both state
    attributes point to one dict. *)
Definition set_arguments (arguments : list string) : M unit :=
  checked ←' check_arguments arguments;
  modify (λ w, World (source_folder_state w) (replica_folder_state w)
                 checked.1.1.1 checked.1.1.2 checked.1.2 checked.2
                 (heap w) (disk w) (cwd w) (trace w)) ;;'
  l ←' alloc empty_state;
  modify (set_replica_folder_state l) ;;'
  modify (set_source_folder_state l).

(** The first [n] rounds of [while True]. *)
Fixpoint sync_loop (fuel : nat) (n : nat) : M unit :=
  match n with
  | O => ret tt
  | S n' =>
      src ←' gets source_directory_path;
      s ←' gets source_folder_state;
      check_folder_state fuel src s false ;;'
      i ←' gets interval;
      time_sleep i ;;'
      sync_loop fuel n'
  end.

(** The part of [run_synchronizer] before the loop. *)
Definition run_initial (fuel : nat) : M unit :=
  logger_info MsgRunning ;;'
  rep ←' gets replica_directory_path;
  r ←' gets replica_folder_state;
  check_folder_state fuel rep r true.

(** [run_synchronizer], cut after [n] rounds of its loop. The
    registration of the [SIGINT] handler has no effect until the signal
    comes and is left out. *)
Definition run_synchronizer (fuel n : nat) : M unit :=
  run_initial fuel ;;' sync_loop fuel n.

(** [stop_synchronizer] *)
Definition stop_synchronizer : M unit :=
  logger_info MsgStopped ;;' sys_exit.

(** [Synchronizer()], on a world whose attributes still have their
    initial values. *)
Definition init (arguments : list string) (fuel n : nat) : M unit :=
  set_arguments arguments ;;'
  create_log_file ;;'
  run_synchronizer fuel n.

(** The world in which [__init__] starts: two distinct empty dicts,
    empty strings, interval 0. *)
Definition initial_world (d : gmap (list string) entry) (c : list string)
  : world :=
  World 0 1 "" "" PyFloat.zero "" [empty_state; empty_state] d c [].

End Synchronizer.

(** * The vocabulary of the properties *)

Section Vocabulary.
Context `{RT : Runtime}.

(** Every object of [d] is in [d'], as it is in [d]. *)
Definition disk_le (d d' : gmap (list string) entry) : Prop :=
  ∀ q e, d !! q = Some e → d' !! q = Some e.

(** The mapping from the source namespace to the replica, as
    [make_copy] and [delete_files] compute it. *)
Definition mapped (w : world) (p : string) : string :=
  PyStr.replace p (source_directory_path w) (replica_directory_path w).

Definition same_env (w w' : world) : Prop :=
  source_directory_path w' = source_directory_path w ∧
  replica_directory_path w' = replica_directory_path w ∧
  interval w' = interval w ∧
  log_file_path w' = log_file_path w ∧
  cwd w' = cwd w.

Definition same_refs (w w' : world) : Prop :=
  source_folder_state w' = source_folder_state w ∧
  replica_folder_state w' = replica_folder_state w ∧
  length (heap w') = length (heap w).

(** The two state attributes point to two different dicts. *)
Definition distinct_refs (w : world) : Prop :=
  source_folder_state w ≠ replica_folder_state w ∧
  source_folder_state w < length (heap w) ∧
  replica_folder_state w < length (heap w).

Definition source_snapshot (w : world) : folder_state :=
  heap w !!! source_folder_state w.

Definition replica_snapshot (w : world) : folder_state :=
  heap w !!! replica_folder_state w.

(** What a part of the walk that registered the paths [P] did to the
    world. *)
Record walk_step (w w' : world) (P : folder_state) : Prop := WalkStep {
  ws_env : same_env w w';
  ws_refs : same_refs w w';
  ws_source : ∀ k,
    st_get k (source_snapshot w') = st_get k (source_snapshot w) ∪ st_get k P;
  ws_replica_lo : ∀ k,
    st_get k (replica_snapshot w) ⊆ st_get k (replica_snapshot w');
  ws_replica_hi : ∀ k,
    st_get k (replica_snapshot w')
    ⊆ st_get k (replica_snapshot w) ∪ st_get k P;
  ws_disk : disk_le (disk w) (disk w');
  ws_present : ∀ k p,
    p ∈ st_get k P → path_exists w' (mapped w p) = true;
  ws_trace : ∃ evs,
    trace w' = trace w ++ evs ∧
    Forall (λ e, ∃ k n p, e = LogInfo (MsgNew k n (mapped w p)) ∧
                          p ∈ st_get k P ∧
                          path_exists w (mapped w p) = false) evs;
  ws_quiet :
    (∀ k p, p ∈ st_get k P → path_exists w (mapped w p) = true) →
    disk w' = disk w ∧ trace w' = trace w ∧
    replica_snapshot w' = replica_snapshot w;
}.

Definition st_union (a b : folder_state) : folder_state :=
  FolderState (st_folders a ∪ st_folders b) (st_files a ∪ st_files b).

Definition st_unions (l : list folder_state) : folder_state :=
  foldr st_union empty_state l.

(** The paths registered for the names [l] of directory [top]: the
    empty name does not pass [if name:]. *)
Definition paths_of (top : string) (l : list string) : gset string :=
  list_to_set (PyStr.join top <$> filter (λ x, x ≠ "") l).

Definition yield_snapshot (y : yielded) : folder_state :=
  FolderState (paths_of y.1.1 y.1.2) (paths_of y.1.1 y.2).

(** The snapshot of a walk that yielded [ys], in the namespace of the
    walked tree. *)
Definition snapshot_of (ys : list yielded) : folder_state :=
  st_unions (yield_snapshot <$> ys).

(** A call of [make_copy]: directory, name, kind. *)
Definition call : Type := string * string * kind.

Definition do_call (c : call) : M unit := make_copy c.1.1 c.1.2 c.2.

Definition call_path (c : call) : string := PyStr.join c.1.1 c.1.2.

(** The calls of [make_copy] for one round of the inner loop. *)
Definition pair_calls (top : string) (pr : option string * option string)
  : list call :=
  match truthy pr.1 with Some x => [(top, x, folders)] | None => [] end ++
  match truthy pr.2 with Some x => [(top, x, files)] | None => [] end.

(** The calls for one directory of the walk, and for a whole walk, in
    the order in which they are made. *)
Definition entry_calls (y : yielded) : list call :=
  zip_longest y.1.2 y.2 ≫= pair_calls y.1.1.

Definition calls_of (ys : list yielded) : list call := ys ≫= entry_calls.

(** The paths a list of calls registers. *)
Definition calls_snapshot (cs : list call) : folder_state :=
  st_unions ((λ c, st_add c.2 (call_path c) empty_state) <$> cs).

(** The key a path names when it can be resolved: the components are
    followed as [lookup] follows them, and the disk is not looked at. *)
Fixpoint lexical (cur segments : list string) : list string :=
  match segments with
  | [] => cur
  | c :: rest =>
      if bool_decide (c = "" ∨ c = ".") then lexical cur rest
      else if bool_decide (c = "..") then lexical (removelast cur) rest
      else lexical (cur ++ [c]) rest
  end.

Definition key_of (w : world) (s : string) : list string :=
  lexical (if PyStr.isabs s then [] else cwd w) (PyStr.split_sep s).

(** The keys the resolution of a path depends on: the entries it goes
    through by name, and the one it ends at. *)
Fixpoint trail (cur segments : list string) : list (list string) :=
  match segments with
  | [] => [cur]
  | c :: rest =>
      if bool_decide (c = "" ∨ c = ".") then trail cur rest
      else if bool_decide (c = "..") then trail (removelast cur) rest
      else (cur ++ [c]) :: trail (cur ++ [c]) rest
  end.

Definition route (w : world) (s : string) : list (list string) :=
  trail (if PyStr.isabs s then [] else cwd w) (PyStr.split_sep s).

(** What was logged and slept on the way from [w] to [w']. *)
Definition logged_since (w w' : world) : list event :=
  drop (length (trace w)) (trace w').

(** What a part of the deletion loop that handled the paths [D] did to
    the world. *)
Record delete_step (w w' : world) (D : string → Prop) : Prop := DeleteStep {
  ds_env : same_env w w';
  ds_refs : same_refs w w';
  ds_heap : heap w' = heap w;
  ds_disk : disk_le (disk w') (disk w);
  ds_gone : ∀ p, D p → path_exists w' (mapped w p) = false;
  ds_trace : ∃ evs,
    trace w' = trace w ++ evs ∧
    Forall (λ e, ∃ k p, e = LogInfo (MsgDeleted k (PyStr.last_segment p)
                                       (mapped w p)) ∧
                        D p ∧ path_exists w (mapped w p) = true) evs;
  ds_quiet : (∀ p, D p → path_exists w (mapped w p) = false) → w' = w;
  ds_frame : ∀ q e,
    disk w !! q = Some e →
    (∀ k n rap, LogInfo (MsgDeleted k n rap) ∈ logged_since w w' →
                strip_prefix (key_of w rap) q = None) →
    disk w' !! q = Some e;
}.

(** The state in which every call of [check_folder_state] leaves the
    object: the source snapshot is a new, empty dict of its own. *)
Definition ready (w : world) : Prop :=
  distinct_refs w ∧ source_snapshot w = empty_state.

(** The world after the two assignments that end a cycle. *)
Definition rotated (w : world) : world :=
  set_source_folder_state (length (heap w))
    (set_heap (heap w ++ [empty_state])
       (set_replica_folder_state (source_folder_state w) w)).

(** The mapping from the replica namespace to the source, as
    [get_absolute_path] computes it. *)
Definition to_source (w : world) (s : string) : string :=
  PyStr.replace s (replica_directory_path w) (source_directory_path w).

Definition st_map (f : string → string) (P : folder_state) : folder_state :=
  FolderState (set_map f (st_folders P)) (set_map f (st_files P)).

(** The world after the paths [P] were added to the dict at [l]. *)
Definition collected (l : nat) (P : folder_state) (w : world) : world :=
  set_heap (<[l := st_union (heap w !!! l) P]> (heap w)) w.

(** One round of the collecting loop, for one name. *)
Definition do_add (l : nat) (c : call) : M unit :=
  bind (get_absolute_path c.1.1 c.1.2) (λ p, set_add l c.2 p).

(** The walk without a body: what [os.walk] yields on a disk nobody
    touches. *)
Definition scan (fuel : nat) (stack : list string) : M (list yielded) :=
  os_walk_for fuel stack (λ _ _ _, ret tt).

(** The state [set_arguments] leaves: both state attributes point to
    one dict. *)
Definition aliased (w : world) : Prop :=
  source_folder_state w = replica_folder_state w ∧
  replica_folder_state w < length (heap w).




(** The text [old] occurs in [s]. *)
Definition occurs (old s : string) : Prop :=
  ∃ a b, s = a +:+ old +:+ b.

(** The same, computed: [old in s]. *)
Fixpoint occursb (old s : string) : bool :=
  String.prefix old s ||
  match s with
  | EmptyString => false
  | String _ s' => occursb old s'
  end.


(** The name [create_log_file] gives the log file. *)
Definition log_file_name : string := "folder_synchronizer.log".

(** The world after [set_arguments] accepted the arguments, with [x]
    the number the interval evaluates to. *)
Definition arguments_set (a0 a1 : string) (x : float) (a3 : string)
    (w : world) : world :=
  World (length (heap w)) (length (heap w)) a0 a1 x a3
    (heap w ++ [empty_state]) (disk w) (cwd w) (trace w).

(** The messages a cycle logs. *)
Definition cycle_message (m : message) : Prop :=
  match m with
  | MsgNew _ _ _ | MsgDeleted _ _ _ => True
  | _ => False
  end.


(** The world [w'] is [w] with directories added to the disk. *)
Definition dirs_made (w w' : world) : Prop :=
  w' = set_disk (disk w') w ∧ disk_le (disk w) (disk w') ∧
  ∀ q e, disk w' !! q = Some e → disk w !! q = None → e = Dir.

(** Whatever its outcome, a monadic action leaves a world related by
    [R] to the one it started in. *)
Definition leaves {A} (R : world → world → Prop) (m : M A) (w : world) : Prop :=
  match m w with
  | Ok _ w' | Raised _ w' => R w w'
  | OutOfFuel => True
  end.

End Vocabulary.

(** * Sample runtime, disks and worlds *)

(** [float(eval(s))] on the interval arguments used below, as Python
    gives it: a number for a literal and for a product, [NameError] for
    an unbound name, [SyntaxError] for text that is no expression. *)
Module SampleNumbers.
Import PrimFloat.
Definition five : float := 5%float.
Definition six : float := 6%float.
Definition minus_five : float := (-5)%float.
End SampleNumbers.

Definition sample_eval (s : string) : exn + float :=
  if bool_decide (s = "5") then inr SampleNumbers.five
  else if bool_decide (s = "2*3") then inr SampleNumbers.six
  else if bool_decide (s = "0") then inr PyFloat.zero
  else if bool_decide (s = "-5") then inr SampleNumbers.minus_five
  else if bool_decide (s = "five") then inl NameError
  else inl SyntaxError.

(** A runtime that iterates in the order of [elements]. *)
Definition sample_runtime : Runtime :=
  {| float_eval := sample_eval;
     iteration := λ l, l;
     iteration_perm := λ l, Permutation_refl l |}.

Module Sample.
#[local] Existing Instance sample_runtime.

(** [/src] holds a file and a folder with a file in it; [/replica]
    holds a file the source does not have. *)
Definition disk_stale : gmap (list string) entry :=
  list_to_map
    [([], Dir); (["home"], Dir); (["log"], Dir);
     (["src"], Dir); (["src"; "a.txt"], File "A");
     (["src"; "d"], Dir); (["src"; "d"; "f.txt"], File "F");
     (["replica"], Dir); (["replica"; "old.txt"], File "O")].

(** The same source, and an empty replica. *)
Definition disk_fresh : gmap (list string) entry :=
  list_to_map
    [([], Dir); (["home"], Dir); (["log"], Dir);
     (["src"], Dir); (["src"; "a.txt"], File "A");
     (["src"; "d"], Dir); (["src"; "d"; "f.txt"], File "F");
     (["replica"], Dir)].

(** A name that is a file in the source and a folder in the replica. *)
Definition disk_kinds : gmap (list string) entry :=
  list_to_map
    [([], Dir); (["home"], Dir); (["log"], Dir);
     (["src"], Dir); (["src"; "x"], File "X");
     (["replica"], Dir); (["replica"; "x"], Dir)].

(** Relative roots [in] and [out] below the working directory. *)
Definition disk_relative : gmap (list string) entry :=
  list_to_map
    [([], Dir); (["home"], Dir); (["home"; "log"], Dir);
     (["home"; "in"], Dir); (["home"; "in"; "output.txt"], File "T");
     (["home"; "out"], Dir); (["home"; "out"; "layout.css"], File "L")].

(** The world after [set_arguments] and [create_log_file]: one dict
    for both state attributes. *)
Definition configured (src rep log : string) (d : gmap (list string) entry)
  : world :=
  World 2 2 src rep SampleNumbers.five log
    [empty_state; empty_state; empty_state] d ["home"] [].

(** The world after the collecting call at startup, with baseline
    [base]. *)
Definition started (src rep log : string) (base : folder_state)
    (d : gmap (list string) entry) : world :=
  World 3 2 src rep SampleNumbers.five log
    [empty_state; empty_state; base; empty_state] d ["home"]
    [LogInfo MsgRunning].

Definition log_made (d : gmap (list string) entry) : gmap (list string) entry :=
  <[ ["log"; "folder_synchronizer.log"] := File "" ]> d.

(** Startup done on [disk_stale]: the baseline holds the stale file. *)
Definition stale_started : world :=
  started "/src" "/replica" "/log" (FolderState ∅ {["/src/old.txt"]})
    (log_made disk_stale).

(** Startup done on [disk_fresh]: the baseline is empty. *)
Definition fresh_started : world :=
  started "/src" "/replica" "/log" empty_state (log_made disk_fresh).

(** Startup done on [disk_kinds]: the baseline holds the folder. *)
Definition kinds_started : world :=
  started "/src" "/replica" "/log" (FolderState {["/src/x"]} ∅)
    (log_made disk_kinds).

(** Configured with the relative roots. *)
Definition relative_configured : world :=
  configured "in" "out" "log" disk_relative.

(** An empty source [in], and a replica [out] with one file, whose
    name holds the text of the source root. *)
Definition disk_clash : gmap (list string) entry :=
  list_to_map
    [([], Dir); (["home"], Dir); (["home"; "log"], Dir);
     (["home"; "log"; "folder_synchronizer.log"], File "");
     (["home"; "in"], Dir);
     (["home"; "out"], Dir); (["home"; "out"; "notes_in.txt"], File "N")].

Definition clash_configured : world :=
  configured "in" "out" "log" disk_clash.

Definition clash_started : world :=
  started "in" "out" "log" (FolderState ∅ {["in/notes_in.txt"]}) disk_clash.

(** The relative roots again: the source [in] holds the folder [d]
    with the file [main.py] in it, the replica [out] is empty. *)
Definition disk_nested : gmap (list string) entry :=
  list_to_map
    [([], Dir); (["home"], Dir); (["home"; "log"], Dir);
     (["home"; "in"], Dir); (["home"; "in"; "d"], Dir);
     (["home"; "in"; "d"; "main.py"], File "M");
     (["home"; "out"], Dir)].

Definition nested_started : world :=
  started "in" "out" "log" empty_state
    (<[ ["home"; "log"; "folder_synchronizer.log"] := File "" ]> disk_nested).

Definition stale_configured : world :=
  configured "/src" "/replica" "/log" (log_made disk_stale).

Definition fresh_configured : world :=
  configured "/src" "/replica" "/log" (log_made disk_fresh).

(** The world an action ends in, or the one it started from when it
    does not end. *)
Definition world_after {A} (m : M A)
    (w : world) : world :=
  match m w with
  | Ok _ w' => w'
  | _ => w
  end.

Definition yields_of (m : M (list yielded))
    (w : world) : list yielded :=
  match m w with
  | Ok ys _ => ys
  | _ => []
  end.

(** One cycle on each of the started worlds, computed. *)
Definition stale_walked : world :=
  Eval vm_compute in
    world_after (os_walk_for 10 ["/src"] (walk_body 3 false)) stale_started.

Definition stale_yields : list yielded :=
  Eval vm_compute in
    yields_of (os_walk_for 10 ["/src"] (walk_body 3 false)) stale_started.

Definition stale_after : world :=
  Eval vm_compute in
    world_after (check_folder_state 10 "/src" 3 false) stale_started.

Definition fresh_after : world :=
  Eval vm_compute in
    world_after (check_folder_state 10 "/src" 3 false) fresh_started.

Definition fresh_yields : list yielded :=
  Eval vm_compute in yields_of (scan 10 ["/src"]) fresh_after.

Definition fresh_after_two : world :=
  Eval vm_compute in
    world_after (check_folder_state 10 "/src" 4 false) fresh_after.

Definition kinds_after : world :=
  Eval vm_compute in
    world_after (check_folder_state 10 "/src" 3 false) kinds_started.

Definition clash_after : world :=
  Eval vm_compute in
    world_after (check_folder_state 10 "in" 3 false) clash_started.

Definition kinds_after_two : world :=
  Eval vm_compute in
    world_after (check_folder_state 10 "/src" 4 false) kinds_after.

Definition stale_yields_again : list yielded :=
  Eval vm_compute in yields_of (scan 10 ["/src"]) stale_after.

Definition nested_folder_copied : world :=
  Eval vm_compute in world_after (make_copy "in" "d" folders) nested_started.

Definition nested_after : world :=
  Eval vm_compute in
    world_after (check_folder_state 10 "in" 3 false) nested_started.



End Sample.

(** * Properties *)

(** ** Facts about the string primitives *)

Module PyStrFacts.
Import PyStr.

Lemma prefix_append (a b : string) : String.prefix a (a +:+ b) = true.
Proof.
  induction a as [|c a IH]; simpl.
  - by destruct b.
  - destruct (Ascii.ascii_dec c c); [exact IH | congruence].
Qed.

Lemma replace_scan_skip (old new a rest : string) :
  replace_scan old new (String.length a) (a +:+ rest)
  = replace_scan old new 0 rest.
Proof. induction a as [|c a IH]; simpl; [done | exact IH]. Qed.

Lemma replace_scan_cons (old new : string) (c : ascii) (s : string) :
  replace_scan old new 0 (String c s)
  = if String.prefix old (String c s)
    then new +:+ replace_scan old new (String.length old - 1) s
    else String c (replace_scan old new 0 s).
Proof. reflexivity. Qed.

(** After an occurrence at the front the scan goes on in the rest: the
    mapping rewrites the rest as well. *)
Lemma replace_prefix (old new rest : string) :
  old ≠ "" →
  replace (old +:+ rest) old new = new +:+ replace rest old new.
Proof.
  destruct old as [|c o]; [done | intros _].
  unfold replace.
  change (String c o +:+ rest) with (String c (o +:+ rest)).
  rewrite replace_scan_cons.
  change (String c (o +:+ rest)) with (String c o +:+ rest).
  rewrite prefix_append.
  replace (String.length (String c o) - 1) with (String.length o)
    by (cbn [String.length]; lia).
  by rewrite replace_scan_skip.
Qed.

Lemma occursb_prefix (old s : string) :
  String.prefix old s = true → occursb old s = true.
Proof. intros H. destruct s; cbn [occursb]; by rewrite H. Qed.

Lemma occurs_occursb (old s : string) : occurs old s → occursb old s = true.
Proof.
  intros (a & b & ->). induction a as [|c a IH].
  - change ("" +:+ old +:+ b) with (old +:+ b).
    apply occursb_prefix, prefix_append.
  - change (String c a +:+ old +:+ b) with (String c (a +:+ old +:+ b)).
    cbn [occursb]. rewrite IH. apply orb_true_r.
Qed.

Lemma not_occurs_by_computation (old s : string) :
  occursb old s = false → ¬ occurs old s.
Proof. intros H Ho%occurs_occursb. congruence. Qed.

(** Without an occurrence of the pattern nothing is replaced. *)
Lemma replace_absent (s old new : string) :
  old ≠ "" → ¬ occurs old s → replace s old new = s.
Proof.
  intros Hold Hno. unfold replace. destruct old as [|c0 o]; [done |].
  assert (Hb : occursb (String c0 o) s = false).
  { destruct (occursb (String c0 o) s) eqn:E; [|done]. destruct Hno.
    clear Hold. induction s as [|c s IH].
    - cbn in E. done.
    - cbn [occursb] in E. apply orb_true_iff in E as [E|E].
      + exists "".
        assert (Hp : ∀ a t, String.prefix a t = true → ∃ b, t = a +:+ b).
        { clear. induction a as [|x a IHa]; intros t Ht.
          - by exists t.
          - destruct t as [|y t]; [done |]. cbn in Ht.
            destruct (Ascii.ascii_dec x y) as [->|]; [|done].
            destruct (IHa t Ht) as [b ->]. by exists b. }
        apply Hp in E as [b ->]. by exists b.
      + destruct (IH E) as (a & b & ->). by exists (String c a), b. }
  clear Hno Hold. induction s as [|c s IH]; [done |].
  cbn [occursb] in Hb. apply orb_false_iff in Hb as [Hp Hb].
  rewrite replace_scan_cons, Hp. by rewrite IH.
Qed.


Lemma split_sep_nonempty (s : string) : PyStr.split_sep s ≠ [].
Proof.
  destruct s as [|c s]; cbn [PyStr.split_sep]; [done |].
  case_bool_decide; [done |]. by destruct (PyStr.split_sep s).
Qed.

(** Splitting at a separator splits the list of segments. *)
Lemma split_sep_sep (a b : string) :
  PyStr.split_sep (a +:+ String "/" b) = PyStr.split_sep a ++ PyStr.split_sep b.
Proof.
  induction a as [|c a IH].
  - change ("" +:+ String "/" b) with (String "/" b).
    cbn [PyStr.split_sep]. by rewrite bool_decide_eq_true_2.
  - change (String c a +:+ String "/" b) with (String c (a +:+ String "/" b)).
    cbn [PyStr.split_sep]. rewrite IH. case_bool_decide; [done |].
    pose proof (split_sep_nonempty a). by destruct (PyStr.split_sep a).
Qed.

Lemma endswith_sep_inv (a : string) :
  PyStr.endswith_sep a = true → ∃ a', a = a' +:+ "/".
Proof.
  induction a as [|c a IH]; [done |]. cbn [PyStr.endswith_sep].
  destruct a as [|c' a].
  - intros ->%bool_decide_eq_true. by exists "".
  - intros [a' ->]%IH. by exists (String c a').
Qed.

Lemma append_assoc (a b c : string) : (a +:+ b) +:+ c = a +:+ b +:+ c.
Proof.
  induction a as [|x a IH]; [done |].
  change (String x ((a +:+ b) +:+ c) = String x (a +:+ b +:+ c)). by rewrite IH.
Qed.

Lemma isabs_join (a n : string) :
  a ≠ "" → PyStr.startswith n "/" = false →
  PyStr.isabs (PyStr.join a n) = PyStr.isabs a.
Proof.
  intros Ha Hn. unfold PyStr.join. rewrite Hn.
  destruct a as [|c a]; [done |].
  assert (He : ∀ s, String.prefix "" s = true) by (by intros []).
  unfold PyStr.isabs, PyStr.startswith.
  destruct (_ || _);
    change (String c a +:+ ?x) with (String c (a +:+ x));
    cbn [String.prefix]; destruct (Ascii.ascii_dec _ _); by rewrite ?He.
Qed.

End PyStrFacts.

Module PyFloatFacts.
Import PrimFloat PyFloat.


End PyFloatFacts.

Section Properties.
Context `{RT : Runtime}.

(** ** Reasoning in the monad *)

Lemma bind_Ok {A B} (m : M A) (k : A → M B) (w : world) (b : B) (w' : world) :
  bind m k w = Ok b w' ↔ ∃ a w1, m w = Ok a w1 ∧ k a w1 = Ok b w'.
Proof.
  unfold bind. split.
  - destruct (m w) as [a w1| |]; [eauto | done | done].
  - intros (a & w1 & -> & ?). done.
Qed.

Lemma ret_Ok {A} (a b : A) (w w' : world) :
  ret a w = Ok b w' ↔ b = a ∧ w' = w.
Proof. unfold ret. split; [by inversion 1 | by intros [-> ->]]. Qed.

Lemma gets_Ok {A} (f : world → A) (b : A) (w w' : world) :
  gets f w = Ok b w' ↔ b = f w ∧ w' = w.
Proof. unfold gets. split; [by inversion 1 | by intros [-> ->]]. Qed.

Lemma modify_Ok (f : world → world) (u : unit) (w w' : world) :
  modify f w = Ok u w' ↔ w' = f w.
Proof. unfold modify. destruct u. split; [by inversion 1 | by intros ->]. Qed.

(** Takes a hypothesis [m w = Ok a w'] apart along the binds of [m];
    the world and the value after are replaced by what they are. *)
Ltac inv_ok H :=
  let a := fresh "a" in
  let w := fresh "w" in
  let H1 := fresh "H" in
  let Hb := fresh "Hb" in
  lazymatch type of H with
  | bind _ _ _ = Ok _ _ =>
      apply bind_Ok in H as (a & w & H1 & H); inv_ok H1; inv_ok H
  | ret _ _ = Ok ?b _ =>
      apply ret_Ok in H as [Hb ->]; try subst b
  | gets _ _ = Ok ?b _ =>
      apply gets_Ok in H as [Hb ->]; try subst b
  | modify _ _ = Ok _ _ => apply modify_Ok in H as ->
  | os_path_exists _ _ = Ok _ _ =>
      unfold os_path_exists in H; inv_ok H
  | deref _ _ = Ok _ _ => unfold deref in H; inv_ok H
  | set_add _ _ _ _ = Ok _ _ => unfold set_add in H; inv_ok H
  | logger_info _ _ = Ok _ _ => unfold logger_info in H; inv_ok H
  | _ => idtac
  end.

(** ** The disk under the filesystem operations *)

Global Instance disk_le_preorder : PreOrder disk_le.
Proof. split; [by intros d q e | intros d1 d2 d3 H1 H2 q e Hq; eauto]. Qed.

Lemma disk_le_insert (d : gmap (list string) entry) (q : list string) (e : entry) :
  d !! q = None → disk_le d (<[q := e]> d).
Proof.
  intros Hq q' e' Hq'. rewrite lookup_insert_ne; [done |]. congruence.
Qed.

Lemma disk_le_delete (d : gmap (list string) entry) (q : list string) :
  disk_le (delete q d) d.
Proof. intros q' e He. by apply lookup_delete_Some in He as [_ He]. Qed.

Lemma disk_le_filter (P : list string * entry → Prop) `{!∀ x, Decision (P x)}
    (d : gmap (list string) entry) :
  disk_le (filter P d) d.
Proof. intros q' e He. by apply map_lookup_filter_Some in He as [He _]. Qed.

(** A path that can be resolved is resolved to the same key on a disk
    that holds more. *)
Lemma lookup_mono (d d' : gmap (list string) entry) (cur segments k : list string) :
  disk_le d d' → lookup d cur segments = inr k → lookup d' cur segments = inr k.
Proof.
  intros Hle. revert cur. induction segments as [|c rest IH]; intros cur; [done |].
  cbn [lookup]. repeat case_bool_decide; try apply IH.
  destruct rest as [|c' rest]; [done |].
  destruct (d !! (cur ++ [c])) as [[x|]|] eqn:Hd; try done.
  rewrite (Hle _ _ Hd). apply IH.
Qed.

Lemma resolve_mono (w w' : world) (s : string) (k : list string) :
  cwd w' = cwd w → disk_le (disk w) (disk w') →
  resolve w s = inr k → resolve w' s = inr k.
Proof.
  unfold resolve. intros -> Hle. case_bool_decide; [done |].
  by apply lookup_mono.
Qed.

Lemma resolve_ext (w w' : world) (s : string) :
  cwd w' = cwd w → disk w' = disk w → resolve w' s = resolve w s.
Proof. unfold resolve. by intros -> ->. Qed.

Lemma path_exists_true (w : world) (s : string) :
  path_exists w s = true ↔ ∃ p, resolve w s = inr p ∧ is_Some (disk w !! p).
Proof.
  unfold path_exists, stat. rewrite bool_decide_eq_true.
  destruct (resolve w s) as [e|p].
  - split; [by intros [? ?] | by intros (? & ? & ?)].
  - split; [eauto | by intros (p' & [= <-] & ?)].
Qed.

Lemma path_exists_mono (w w' : world) (s : string) :
  cwd w' = cwd w → disk_le (disk w) (disk w') →
  path_exists w s = true → path_exists w' s = true.
Proof.
  intros Hc Hd. rewrite !path_exists_true. intros (p & Hp & [e He]).
  exists p. split; [by eapply resolve_mono | eauto].
Qed.

Lemma path_exists_ext (w w' : world) (s : string) :
  cwd w' = cwd w → disk w' = disk w → path_exists w' s = path_exists w s.
Proof. unfold path_exists, stat, resolve. by intros -> ->. Qed.

Lemma stat_exists (w : world) (s : string) (e : entry) :
  stat w s = Some e → path_exists w s = true.
Proof. intros H. unfold path_exists. rewrite H. apply bool_decide_eq_true_2. eauto. Qed.

Lemma strip_prefix_app (p r : list string) : strip_prefix p (p ++ r) = Some r.
Proof.
  induction p as [|x p IH]; simpl; [done |].
  by rewrite bool_decide_eq_true_2.
Qed.

Lemma strip_prefix_Some (p k r : list string) :
  strip_prefix p k = Some r → k = p ++ r.
Proof.
  revert k. induction p as [|x p IH]; intros k; simpl.
  - by intros [= ->].
  - destruct k as [|y k]; [done |]. case_bool_decide; [|done].
    intros ?%IH. by subst.
Qed.

Lemma strip_prefix_self (p : list string) : strip_prefix p p = Some [].
Proof.
  pose proof (strip_prefix_app p []) as H. by rewrite app_nil_r in H.
Qed.

(** *** Making directories *)

Lemma set_disk_same (d : gmap (list string) entry) (w w1 : world) :
  w1 = set_disk (disk w1) w → set_disk d w1 = set_disk d w.
Proof. destruct w, w1. cbn. intros [= -> -> -> -> -> -> -> -> ->]. done. Qed.

Lemma dirs_made_refl (w : world) : dirs_made w w.
Proof. split; [by destruct w | split; [reflexivity | congruence]]. Qed.

Lemma dirs_made_trans (w1 w2 w3 : world) :
  dirs_made w1 w2 → dirs_made w2 w3 → dirs_made w1 w3.
Proof.
  intros (E1 & L1 & N1) (E2 & L2 & N2). split; [|split].
  - transitivity (set_disk (disk w3) w2); [exact E2 |]. by rewrite E1.
  - by etrans.
  - intros q e H3 H1. destruct (disk w2 !! q) as [e2|] eqn:H2.
    + rewrite (L2 _ _ H2) in H3. injection H3 as <-. by eapply N1.
    + by eapply N2.
Qed.

Lemma os_mkdir_makes (name : string) (w : world) :
  leaves dirs_made (os_mkdir name) w.
Proof.
  unfold leaves, os_mkdir.
  destruct (resolve w _) as [e|cp]; [apply dirs_made_refl |].
  destruct (dotted name); [apply dirs_made_refl |].
  unfold vacant. destruct (disk w !! cp) eqn:Hcp; [apply dirs_made_refl |].
  destruct (disk w !! removelast cp) as [[c|]|]; try apply dirs_made_refl.
  split; [done | split].
  - by apply disk_le_insert.
  - intros q e. cbn [disk set_disk]. destruct (decide (cp = q)) as [->|Hne].
    + rewrite lookup_insert_eq. congruence.
    + rewrite lookup_insert_ne by done. congruence.
Qed.

Lemma os_makedirs_makes (fuel : nat) (name : string) (w : world) :
  leaves dirs_made (os_makedirs fuel name) w.
Proof.
  revert name w. induction fuel as [|fuel IH]; intros name w; [done |].
  cbn [os_makedirs]. set (ht := if bool_decide _ then _ else _).
  unfold leaves, bind at 1, os_path_exists, gets.
  destruct (_ && _ && _).
  - unfold bind, except_pass.
    specialize (IH ht.1 w). unfold leaves in IH.
    destruct (os_makedirs fuel ht.1 w) as [[] w1|e w1|]; [| |done].
    + case_bool_decide; [done |].
      pose proof (os_mkdir_makes name w1) as Hm. unfold leaves in Hm.
      destruct (os_mkdir name w1) as [[] w2|e w2|]; [| |done];
        by eapply dirs_made_trans.
    + case_bool_decide; [|done]. case_bool_decide; [done |].
      pose proof (os_mkdir_makes name w1) as Hm. unfold leaves in Hm.
      destruct (os_mkdir name w1) as [[] w2|e' w2|]; [| |done];
        by eapply dirs_made_trans.
  - apply os_mkdir_makes.
Qed.

(** *** Copying *)

Lemma graft_exact (cs cd r : list string) (e : entry)
    (from acc : gmap (list string) entry) :
  from !! (cs ++ r) = Some e → graft cs cd from acc !! (cd ++ r) = Some e.
Proof.
  intros Hin%elem_of_map_to_list. unfold graft.
  pose proof (NoDup_fst_map_to_list from) as Hnd.
  induction (map_to_list from) as [|[k e'] l IH]; cbn [foldr fst snd].
  - by apply elem_of_nil in Hin.
  - cbn [fmap list_fmap fst] in Hnd. apply NoDup_cons in Hnd as [Hk Hnd].
    destruct (strip_prefix cs k) as [r'|] eqn:Hs.
    + apply strip_prefix_Some in Hs as ->.
      destruct (decide (r' = r)) as [->|Hne].
      * rewrite lookup_insert_eq. f_equal.
        apply elem_of_cons in Hin as [[= <-]|Hin]; [done |].
        destruct Hk. apply list_elem_of_fmap. by exists (cs ++ r, e).
      * rewrite lookup_insert_ne by (intros ?%app_inv_head; done).
        apply IH; [|done].
        apply elem_of_cons in Hin as [[= ?%app_inv_head ?]|Hin]; done.
    + apply IH; [|done].
      apply elem_of_cons in Hin as [[= <- <-]|Hin]; [|done].
      by rewrite strip_prefix_app in Hs.
Qed.

Lemma graft_outside (cs cd q : list string)
    (from acc : gmap (list string) entry) :
  strip_prefix cd q = None → graft cs cd from acc !! q = acc !! q.
Proof.
  intros Hq. unfold graft.
  induction (map_to_list from) as [|[k e'] l IH]; cbn [foldr fst snd]; [done |].
  destruct (strip_prefix cs k) as [r'|]; [|done].
  rewrite lookup_insert_ne; [done |].
  intros <-. by rewrite strip_prefix_app in Hq.
Qed.

(** What the graft puts at the destination itself is what is at the
    source. *)
Lemma graft_at (cs cd : list string) (e : entry)
    (from acc : gmap (list string) entry) :
  from !! cs = Some e → graft cs cd from acc !! cd = Some e.
Proof.
  intros H. pose proof (graft_exact cs cd [] e from acc) as Hx.
  rewrite !app_nil_r in Hx. auto.
Qed.

(** On a destination that holds nothing below it, the graft keeps what
    was on the disk. *)
Lemma graft_le (cs cd : list string) (from acc : gmap (list string) entry) :
  from !! cs = Some Dir →
  (∀ e, acc !! cd = Some e → e = Dir) →
  filter (λ ke : list string * entry,
            is_Some (strip_prefix cd ke.1) ∧ ke.1 ≠ cd) acc = ∅ →
  disk_le acc (graft cs cd from acc).
Proof.
  intros Hcs Hcd Hempty q e Hq.
  destruct (strip_prefix cd q) as [r|] eqn:Hr.
  - destruct (decide (q = cd)) as [->|Hne].
    + rewrite (Hcd _ Hq). by apply graft_at.
    + assert (Hin : filter (λ ke : list string * entry,
                is_Some (strip_prefix cd ke.1) ∧ ke.1 ≠ cd) acc !! q = Some e).
      { apply map_lookup_filter_Some. split; [done |]. cbn. rewrite Hr. eauto. }
      rewrite Hempty in Hin. by rewrite lookup_empty in Hin.
  - by rewrite graft_outside.
Qed.

Lemma rstrip_sep_id (s : string) :
  PyStr.endswith_sep s = false → PyStr.rstrip_sep s = s.
Proof.
  induction s as [|c s IH]; [done |]. cbn [PyStr.endswith_sep PyStr.rstrip_sep].
  destruct s as [|c' s].
  - cbn [PyStr.rstrip_sep]. by intros ->.
  - intros H. rewrite (IH H). done.
Qed.

Lemma writable_plain (w : world) (path : string) (cp : list string) :
  writable w path = inr cp →
  resolve w path = inr cp ∧
  disk w !! cp ≠ Some Dir ∧
  (disk w !! cp = None → disk w !! removelast cp = Some Dir).
Proof.
  unfold writable. destruct (resolve w _) as [e|k] eqn:Hr; [done |].
  destruct (PyStr.endswith_sep path) eqn:He; [done |]. cbn [orb].
  destruct (dotted path); [done |].
  rewrite rstrip_sep_id in Hr by done.
  assert (Hp : resolve w path = inr k).
  { by destruct (bool_decide (path = "")). }
  unfold vacant.
  destruct (disk w !! k) as [[c|]|] eqn:Hk; [| done |].
  - intros [= <-]. split; [done |]. split; congruence.
  - destruct (disk w !! removelast k) as [[c|]|] eqn:Hpar; try done.
    intros [= <-]. split; [done |]. split; congruence.
Qed.

(** The copy of a file onto a path that is not there. *)
Lemma shutil_copy_exact (src dst : string) (w w' : world) (u : unit) :
  shutil_copy src dst w = Ok u w' →
  path_exists w dst = false →
  ∃ c cs cd,
    resolve w src = inr cs ∧ disk w !! cs = Some (File c) ∧
    resolve w dst = inr cd ∧ disk w !! cd = None ∧
    w' = set_disk (<[cd := File c]> (disk w)) w.
Proof.
  unfold shutil_copy. intros H Hmiss.
  rewrite bool_decide_eq_false_2 in H.
  2:{ intros Hd. apply stat_exists in Hd. congruence. }
  destruct (samefile w src dst); [done |].
  destruct (resolve w src) as [e|cs] eqn:Hs; [done |].
  destruct (disk w !! cs) as [[c|]|] eqn:Hcs; [| done | done].
  destruct (writable w dst) as [e|cd] eqn:Hw.
  { by destruct (_ && _). }
  apply writable_plain in Hw as (Hd & _ & _).
  injection H as <-. exists c, cs, cd. repeat (split; [done |]).
  split; [|done].
  destruct (disk w !! cd) eqn:Hcd; [|done].
  assert (path_exists w dst = true); [|congruence].
  apply path_exists_true. exists cd. eauto.
Qed.

Lemma shutil_copy_Ok (src dst : string) (w w' : world) (u : unit) :
  shutil_copy src dst w = Ok u w' →
  path_exists w dst = false →
  ∃ d', w' = set_disk d' w ∧ disk_le (disk w) d' ∧ path_exists w' dst = true.
Proof.
  intros H Hmiss.
  destruct (shutil_copy_exact _ _ _ _ _ H Hmiss)
    as (c & cs & cd & _ & _ & Hd & Hnone & ->).
  eexists. split; [done |].
  assert (Hle : disk_le (disk w) (<[cd := File c]> (disk w)))
    by by apply disk_le_insert.
  split; [done |].
  apply path_exists_true. exists cd. split.
  - by apply (resolve_mono w).
  - cbn. rewrite lookup_insert_eq. eauto.
Qed.

(** The copy of a folder: the disk grows, the destination is there
    afterwards, and what was at or below the source is at the same
    place below the destination. *)
Lemma shutil_copytree_Ok (src dst : string) (w w' : world) (u : unit) :
  shutil_copytree src dst w = Ok u w' →
  ∃ d' cs cd, w' = set_disk d' w ∧ disk_le (disk w) d' ∧
    resolve w src = inr cs ∧ disk w !! cs = Some Dir ∧
    resolve w' dst = inr cd ∧ disk w !! cd = None ∧
    path_exists w' dst = true ∧
    (∀ r e, disk w !! (cs ++ r) = Some e → d' !! (cd ++ r) = Some e) ∧
    (∀ q e, disk w !! q = Some e → d' !! q = Some e).
Proof.
  unfold shutil_copytree. intros H.
  destruct (resolve w src) as [e|cs] eqn:Hs; [done |].
  destruct (disk w !! cs) as [[c|]|] eqn:Hcs; [done | | done].
  pose proof (os_makedirs_makes (S (String.length dst)) dst w) as Hm.
  unfold leaves in Hm.
  destruct (os_makedirs _ dst w) as [[] w1|e w1|]; [| done | done].
  destruct Hm as (E1 & L1 & N1).
  destruct (resolve w1 dst) as [e|cd] eqn:Hd; [done |].
  case_bool_decide as Hfresh; cbn [negb andb] in H; [|done].
  destruct (descends _ _ _); [done |]. injection H as <- <-.
  destruct Hfresh as [Hnone Hempty].
  assert (L2 : disk_le (disk w1) (graft cs cd (disk w) (disk w1))).
  { apply graft_le; [done | | done]. intros e He. by eapply N1. }
  assert (L : disk_le (disk w) (graft cs cd (disk w) (disk w1)))
    by by etrans.
  assert (Hcwd : cwd w1 = cwd w) by (by rewrite E1).
  assert (Hres : resolve (set_disk (graft cs cd (disk w) (disk w1)) w1) dst
                 = inr cd) by by apply (resolve_mono w1).
  exists (graft cs cd (disk w) (disk w1)), cs, cd.
  split; [apply set_disk_same, E1 |].
  repeat (split; [done |]).
  split; [|split; [|done]].
  - apply path_exists_true. exists cd. split; [done |]. cbn.
    rewrite (graft_at _ _ Dir) by done. eauto.
  - intros r e He. by apply graft_exact.
Qed.

(** *** Deleting *)

(** A path that can be resolved is resolved to its lexical key. *)
Lemma lookup_lexical (d : gmap (list string) entry) (cur segments k : list string) :
  lookup d cur segments = inr k → k = lexical cur segments.
Proof.
  revert cur. induction segments as [|c rest IH]; intros cur.
  - by intros [= <-].
  - cbn [lookup lexical]. repeat case_bool_decide; try apply IH.
    destruct rest as [|c' rest]; [by intros [= <-] |].
    destruct (d !! (cur ++ [c])) as [[x|]|]; try done. apply IH.
Qed.

Lemma resolve_key (w : world) (s : string) (k : list string) :
  resolve w s = inr k → k = key_of w s.
Proof.
  unfold resolve, key_of. case_bool_decide; [done |]. apply lookup_lexical.
Qed.

Lemma lexical_in_trail (cur segments : list string) :
  lexical cur segments ∈ trail cur segments.
Proof.
  revert cur. induction segments as [|c rest IH]; intros cur.
  - apply list_elem_of_singleton. done.
  - cbn [lexical trail]. repeat case_bool_decide; try apply IH.
    right. apply IH.
Qed.

(** The resolution of a path depends on the entries of its trail
    only. *)
Lemma lookup_frame (d d' : gmap (list string) entry) (cur segments k : list string) :
  (∀ t e, t ∈ trail cur segments → d !! t = Some e → d' !! t = Some e) →
  lookup d cur segments = inr k → lookup d' cur segments = inr k.
Proof.
  revert cur. induction segments as [|c rest IH]; intros cur Hkeep; [done |].
  cbn [lookup trail] in *. repeat case_bool_decide; try by apply IH.
  destruct rest as [|c' rest]; [done |].
  destruct (d !! (cur ++ [c])) as [[x|]|] eqn:Hd; try done.
  rewrite (Hkeep _ _ (list_elem_of_here _ _) Hd).
  apply IH. intros t e Ht. apply Hkeep. by right.
Qed.

(** A path is still there when every entry of its route is. *)
Lemma path_exists_frame (w w' : world) (s : string) :
  cwd w' = cwd w →
  (∀ t e, t ∈ route w s → disk w !! t = Some e → disk w' !! t = Some e) →
  path_exists w s = true → path_exists w' s = true.
Proof.
  intros Hc Hkeep. rewrite !path_exists_true. intros (k & Hk & [e He]).
  exists k. split.
  - unfold resolve in *. rewrite Hc. case_bool_decide; [done |].
    by eapply lookup_frame.
  - exists e. apply Hkeep; [|done].
    rewrite (resolve_key _ _ _ Hk). apply lexical_in_trail.
Qed.

Lemma os_remove_Ok (p : string) (w w' : world) (u : unit) :
  os_remove p w = Ok u w' →
  ∃ d', w' = set_disk d' w ∧ disk_le d' (disk w) ∧ path_exists w' p = false ∧
        ∀ q e, disk w !! q = Some e → strip_prefix (key_of w p) q = None →
               d' !! q = Some e.
Proof.
  unfold os_remove. intros H.
  destruct (resolve w p) as [e|cp] eqn:Hp; [done |].
  destruct (disk w !! cp) as [[c|]|] eqn:Hcp; [| done | done].
  simplify_eq. eexists; split; [done |]. split; [apply disk_le_delete |].
  split.
  - apply not_true_is_false. rewrite path_exists_true.
    intros (q & Hq & Hs). cbn in Hs.
    apply (resolve_mono _ w) in Hq; [|done | apply disk_le_delete].
    rewrite Hp in Hq. injection Hq as <-.
    rewrite lookup_delete_eq in Hs. by destruct Hs.
  - intros q e Hq Hout. rewrite <- (resolve_key _ _ _ Hp) in Hout.
    rewrite lookup_delete_ne; [done |].
    intros <-. by rewrite strip_prefix_self in Hout.
Qed.

Lemma shutil_rmtree_Ok (p : string) (w w' : world) (u : unit) :
  shutil_rmtree p w = Ok u w' →
  ∃ d', w' = set_disk d' w ∧ disk_le d' (disk w) ∧ path_exists w' p = false ∧
        ∀ q e, disk w !! q = Some e → strip_prefix (key_of w p) q = None →
               d' !! q = Some e.
Proof.
  unfold shutil_rmtree. intros H.
  destruct (resolve w p) as [e|cp] eqn:Hp; [done |].
  destruct (disk w !! cp) as [[c|]|] eqn:Hcp; [done | | done].
  destruct (dotted p); [done |].
  simplify_eq. eexists; split; [done |]. split; [apply disk_le_filter |].
  split.
  - apply not_true_is_false. rewrite path_exists_true.
    intros (q & Hq & Hs). cbn in Hs.
    apply (resolve_mono _ w) in Hq; [|done | apply disk_le_filter].
    rewrite Hp in Hq. injection Hq as <-. destruct Hs as [e He].
    apply map_lookup_filter_Some in He as [_ He]. cbn in He.
    by rewrite strip_prefix_self in He.
  - intros q e Hq Hout. rewrite <- (resolve_key _ _ _ Hp) in Hout.
    by apply map_lookup_filter_Some.
Qed.

(** ** One step of the walk of a reconciliation cycle *)

Lemma same_env_refl (w : world) : same_env w w.
Proof. by repeat split. Qed.

Lemma same_env_trans (w1 w2 w3 : world) :
  same_env w1 w2 → same_env w2 w3 → same_env w1 w3.
Proof.
  intros (?&?&?&?&?) (?&?&?&?&?). repeat split; congruence.
Qed.

Lemma same_refs_trans (w1 w2 w3 : world) :
  same_refs w1 w2 → same_refs w2 w3 → same_refs w1 w3.
Proof. intros (?&?&?) (?&?&?). repeat split; congruence. Qed.

Lemma mapped_env (w w' : world) (p : string) :
  same_env w w' → mapped w' p = mapped w p.
Proof. intros (Hs & Hr & _). unfold mapped. by rewrite Hs, Hr. Qed.

Lemma distinct_refs_step (w w' : world) :
  same_refs w w' → distinct_refs w → distinct_refs w'.
Proof. intros (Hs & Hr & Hl) (? & ? & ?). unfold distinct_refs. rewrite Hs, Hr, Hl. done. Qed.

Lemma walk_step_refl (w : world) (P : folder_state) :
  (∀ k, st_get k P = ∅) → walk_step w w P.
Proof.
  intros HP. split.
  - apply same_env_refl.
  - done.
  - intros k. rewrite HP. set_solver +.
  - done.
  - intros k. set_solver +.
  - done.
  - intros k p. rewrite HP. set_solver +.
  - exists []. by rewrite app_nil_r.
  - done.
Qed.

Lemma walk_step_trans (w1 w2 w3 : world) (P1 P2 P : folder_state) :
  (∀ k, st_get k P = st_get k P1 ∪ st_get k P2) →
  walk_step w1 w2 P1 → walk_step w2 w3 P2 → walk_step w1 w3 P.
Proof.
  intros HP [E1 R1 S1 L1 U1 D1 X1 (ev1 & T1 & F1) Q1]
            [E2 R2 S2 L2 U2 D2 X2 (ev2 & T2 & F2) Q2].
  assert (Hcwd : cwd w2 = cwd w1) by apply E1.
  split.
  - by eapply same_env_trans.
  - by eapply same_refs_trans.
  - intros k. rewrite S2, S1, HP. set_solver +.
  - intros k. etrans; [apply L1 | apply L2].
  - intros k. specialize (U1 k). specialize (U2 k). rewrite HP.
    set_solver + U1 U2.
  - by etrans.
  - intros k p. rewrite HP. intros [Hp|Hp]%elem_of_union.
    + eapply path_exists_mono; [apply E2 | exact D2 | by eapply X1].
    + rewrite <- (mapped_env w1 w2) by done. by eapply X2.
  - exists (ev1 ++ ev2). split; [by rewrite T2, T1, app_assoc |].
    apply Forall_app. split.
    + eapply Forall_impl; [exact F1 |]. intros e (k & n & p & ? & Hp & ?).
      exists k, n, p. rewrite HP. split; [done |]. split; [|done].
      apply elem_of_union. by left.
    + eapply Forall_impl; [exact F2 |]. intros e (k & n & p & He & Hp & Hf).
      exists k, n, p. rewrite (mapped_env w1 w2) in He, Hf by done.
      split; [done |]. split; [rewrite HP; apply elem_of_union; by right |].
      destruct (path_exists w1 (mapped w1 p)) eqn:Hx; [|done].
      rewrite (path_exists_mono w1 w2) in Hf; done.
  - intros Hall.
    destruct Q1 as (Hd1 & Ht1 & Hr1).
    { intros k p Hp. apply (Hall k). rewrite HP. apply elem_of_union. by left. }
    destruct Q2 as (Hd2 & Ht2 & Hr2).
    { intros k p Hp. rewrite (mapped_env w1 w2) by done.
      rewrite (path_exists_ext w1 w2) by done.
      apply (Hall k). rewrite HP. apply elem_of_union. by right. }
    repeat split; congruence.
Qed.

Lemma st_get_add (k k' : kind) (p : string) (d : folder_state) :
  st_get k' (st_add k p d)
  = if decide (k' = k) then {[p]} ∪ st_get k' d else st_get k' d.
Proof. destruct k, k'; reflexivity. Qed.

Lemma st_get_single (k k' : kind) (p : string) :
  st_get k' (st_add k p empty_state)
  = if decide (k' = k) then {[p]} else ∅.
Proof.
  rewrite st_get_add.
  destruct k, k'; cbn [st_get empty_state st_folders st_files];
    case_decide; try done; set_solver +.
Qed.

(** The copy of [make_copy], when the mapped path is missing. *)
Lemma copy_missing (k : kind) (object_name path_abs rap : string)
    (w w' : world) (u : unit) :
  match k with
  | folders =>
      bind (shutil_copytree path_abs rap)
        (λ _, logger_info (MsgNew folders object_name rap))
  | files =>
      bind (shutil_copy path_abs rap)
        (λ _, logger_info (MsgNew files object_name rap))
  end w = Ok u w' →
  path_exists w rap = false →
  ∃ d', disk_le (disk w) d' ∧
        w' = set_trace (trace w ++ [LogInfo (MsgNew k object_name rap)])
               (set_disk d' w) ∧
        path_exists w' rap = true.
Proof.
  intros H Hmiss. destruct k; inv_ok H.
  - apply shutil_copytree_Ok in H0
      as (d' & cs & cd & -> & ? & _ & _ & _ & _ & ? & _).
    exists d'. split; [done |]. split; [done |].
    by erewrite path_exists_ext.
  - apply shutil_copy_Ok in H0 as (d' & -> & ? & Hx); [|done].
    exists d'. split; [done |]. split; [done |].
    by erewrite path_exists_ext.
Qed.

(** [make_copy] registers the path in the source snapshot; it touches
    the disk, the log and the replica snapshot only when the mapped
    path is not there. *)
Lemma make_copy_step (directory_path object_name : string) (k : kind)
    (w w' : world) (u : unit) :
  distinct_refs w →
  make_copy directory_path object_name k w = Ok u w' →
  walk_step w w' (st_add k (PyStr.join directory_path object_name) empty_state).
Proof.
  intros (Hne & Hs & Hr) H. unfold make_copy in H.
  apply bind_Ok in H as (src & ? & H1 & H). inv_ok H1.
  apply bind_Ok in H as (rep & ? & H1 & H). inv_ok H1.
  apply bind_Ok in H as (present & ? & H1 & H). inv_ok H1.
  apply bind_Ok in H as (u1 & w1 & H1 & H). inv_ok H.
  set (p := PyStr.join directory_path object_name) in *.
  change (PyStr.replace p _ _) with (mapped w p) in *.
  destruct (path_exists w (mapped w p)) eqn:Hex; cbn [negb] in H1.
  - (* the mapped path is there *)
    inv_ok H1.
    split; unfold source_snapshot, replica_snapshot, same_env, same_refs; cbn.
    + done.
    + repeat split. by rewrite length_insert.
    + intros k'. rewrite list_lookup_total_insert_eq by done.
      rewrite st_get_add, st_get_single. case_decide; set_solver +.
    + intros k'. by rewrite list_lookup_total_insert_ne.
    + intros k'. rewrite list_lookup_total_insert_ne by done. set_solver +.
    + reflexivity.
    + intros k' p'. rewrite st_get_single. case_decide; [|set_solver +].
      intros ->%elem_of_singleton. done.
    + exists []. by rewrite app_nil_r.
    + intros _. by rewrite list_lookup_total_insert_ne.
  - (* the mapped path is missing *)
    apply bind_Ok in H1 as (r & ? & H2 & H1). inv_ok H2.
    apply bind_Ok in H1 as (u2 & ? & H2 & H1). inv_ok H2.
    set (h1 := <[replica_folder_state w := _]> (heap w)) in *.
    apply copy_missing in H1 as (d' & Hle & -> & Hnow);
      [|by erewrite path_exists_ext].
    split; unfold source_snapshot, replica_snapshot, same_env, same_refs; cbn.
    + done.
    + repeat split. unfold h1. by rewrite !length_insert.
    + intros k'. rewrite list_lookup_total_insert_eq
        by (unfold h1; by rewrite length_insert).
      unfold h1. rewrite list_lookup_total_insert_ne by done.
      rewrite st_get_add, st_get_single. case_decide; set_solver +.
    + intros k'. rewrite list_lookup_total_insert_ne by done.
      unfold h1. rewrite list_lookup_total_insert_eq by done.
      rewrite st_get_add. case_decide; set_solver +.
    + intros k'. rewrite list_lookup_total_insert_ne by done.
      unfold h1. rewrite list_lookup_total_insert_eq by done.
      rewrite st_get_add, st_get_single. case_decide; set_solver +.
    + done.
    + intros k' p'. rewrite st_get_single. case_decide; [|set_solver +].
      intros ->%elem_of_singleton.
      rewrite <- Hnow. by apply path_exists_ext.
    + eexists. split; [done |]. apply Forall_singleton.
      exists k, object_name, p. split; [done |].
      rewrite st_get_single. rewrite decide_True by done.
      split; [set_solver + | done].
    + intros Hall. specialize (Hall k p). rewrite st_get_single in Hall.
      rewrite decide_True in Hall by done.
      rewrite Hall in Hex; [done | set_solver +].
Qed.

(** ** The snapshot a walk computes *)

Lemma st_get_union (k : kind) (a b : folder_state) :
  st_get k (st_union a b) = st_get k a ∪ st_get k b.
Proof. by destruct k. Qed.

Lemma st_get_empty (k : kind) : st_get k empty_state = ∅.
Proof. by destruct k. Qed.

Lemma snapshot_of_cons (k : kind) (y : yielded) (ys : list yielded) :
  st_get k (snapshot_of (y :: ys))
  = st_get k (yield_snapshot y) ∪ st_get k (snapshot_of ys).
Proof. unfold snapshot_of. cbn [fmap list_fmap st_unions foldr]. apply st_get_union. Qed.

Lemma paths_of_cons (top x : string) (l : list string) :
  paths_of top (x :: l)
  = (if decide (x = "") then ∅ else {[PyStr.join top x]}) ∪ paths_of top l.
Proof.
  unfold paths_of. rewrite filter_cons.
  destruct (decide (x = "")) as [->|Hx].
  - rewrite decide_False by (by intros []). set_solver +.
  - rewrite decide_True by done. by rewrite fmap_cons, list_to_set_cons.
Qed.

Lemma paths_of_nil (top : string) : paths_of top [] = ∅.
Proof. done. Qed.

(** *** The loop over one directory *)

Lemma for_each_cons {A} (x : A) (l : list A) (body : A → M unit)
    (w w' : world) (u : unit) :
  for_each (x :: l) body w = Ok u w' ↔
  ∃ w1, body x w = Ok tt w1 ∧ for_each l body w1 = Ok u w'.
Proof.
  cbn [for_each]. rewrite bind_Ok. split.
  - intros ([] & w1 & ? & ?). eauto.
  - intros (w1 & ? & ?). eauto.
Qed.

Lemma for_each_app {A} (l1 l2 : list A) (body : A → M unit)
    (w w' : world) (u : unit) :
  for_each (l1 ++ l2) body w = Ok u w' ↔
  ∃ w1, for_each l1 body w = Ok tt w1 ∧ for_each l2 body w1 = Ok u w'.
Proof.
  revert w. induction l1 as [|x l1 IH]; intros w.
  - cbn [app for_each]. split; [by exists w | intros (w1 & [= <-] & ?); done].
  - rewrite <- app_comm_cons, for_each_cons. setoid_rewrite IH. split.
    + intros (w1 & ? & w2 & ? & ?). exists w2. split; [|done].
      apply for_each_cons. eauto.
    + intros (w2 & (w1 & ? & ?)%for_each_cons & ?). eauto.
Qed.

Lemma truthy_Some (x : string) :
  truthy (Some x) = if decide (x = "") then None else Some x.
Proof. unfold truthy. case_bool_decide; by case_decide. Qed.

Lemma calls_snapshot_cons (k : kind) (c : call) (cs : list call) :
  st_get k (calls_snapshot (c :: cs))
  = st_get k (st_add c.2 (call_path c) empty_state) ∪ st_get k (calls_snapshot cs).
Proof. unfold calls_snapshot. cbn [fmap list_fmap st_unions foldr]. apply st_get_union. Qed.

Lemma calls_snapshot_app (k : kind) (cs1 cs2 : list call) :
  st_get k (calls_snapshot (cs1 ++ cs2))
  = st_get k (calls_snapshot cs1) ∪ st_get k (calls_snapshot cs2).
Proof.
  induction cs1 as [|c cs1 IH].
  - cbn [app]. unfold calls_snapshot at 2. cbn. rewrite st_get_empty. set_solver +.
  - rewrite <- app_comm_cons, !calls_snapshot_cons, IH. set_solver +.
Qed.

Lemma pair_calls_snapshot (k : kind) (top : string)
    (folder file : option string) :
  st_get k (calls_snapshot (pair_calls top (folder, file)))
  = st_get k (FolderState (paths_of top (option_list folder))
                          (paths_of top (option_list file))).
Proof.
  unfold pair_calls. rewrite calls_snapshot_app. cbn [fst snd].
  destruct folder as [x|], file as [y|]; unfold option_list; cbn [option_rect];
    rewrite ?truthy_Some, ?paths_of_cons, ?paths_of_nil; cbn [truthy];
    repeat case_decide; rewrite ?calls_snapshot_cons;
    unfold calls_snapshot, call_path; cbn [fmap list_fmap st_unions foldr fst snd];
    rewrite ?st_get_single, ?st_get_empty;
    destruct k; cbn [st_get st_folders st_files];
    repeat (case_decide; try done); set_solver +.
Qed.

Lemma zip_calls_snapshot (k : kind) (top : string) (l1 l2 : list string) :
  st_get k (calls_snapshot (zip_longest l1 l2 ≫= pair_calls top))
  = st_get k (FolderState (paths_of top l1) (paths_of top l2)).
Proof.
  revert l2. induction l1 as [|x l1 IH]; intros l2.
  - cbn [zip_longest]. induction l2 as [|y l2 IH2].
    + destruct k; done.
    + cbn [map mbind list_bind]. rewrite calls_snapshot_app, pair_calls_snapshot.
      cbn [mbind] in IH2. rewrite IH2.
      destruct k; unfold option_list; cbn [st_get st_folders st_files option_rect];
        rewrite ?(paths_of_cons top y l2), ?(paths_of_cons top y []), ?paths_of_nil;
        set_solver +.
  - destruct l2 as [|y l2]; cbn [zip_longest mbind list_bind];
      rewrite calls_snapshot_app, pair_calls_snapshot;
      cbn [mbind] in IH; rewrite IH;
      destruct k; unfold option_list; cbn [st_get st_folders st_files option_rect];
      rewrite ?(paths_of_cons top x l1), ?(paths_of_cons top x []),
        ?(paths_of_cons top y l2), ?(paths_of_cons top y []), ?paths_of_nil;
      set_solver +.
Qed.

(** The calls of a walk register the snapshot of what it yielded. *)
Lemma calls_snapshot_of (k : kind) (ys : list yielded) :
  st_get k (calls_snapshot (calls_of ys)) = st_get k (snapshot_of ys).
Proof.
  induction ys as [|[[top dirs] nondirs] ys IH].
  - destruct k; done.
  - unfold calls_of. cbn [mbind list_bind]. rewrite calls_snapshot_app.
    unfold calls_of in IH. cbn [mbind] in IH. rewrite IH, snapshot_of_cons.
    f_equal. unfold entry_calls. cbn [fst snd]. apply zip_calls_snapshot.
Qed.

(** *** The loop over one directory, as a sequence of calls *)

Lemma walk_pair_calls (top : string) (folder file : option string)
    (w w' : world) (u : unit) :
  bind (when_truthy folder (λ x, make_copy top x folders))
       (λ _, when_truthy file (λ x, make_copy top x files)) w = Ok u w' →
  for_each (pair_calls top (folder, file)) do_call w = Ok u w'.
Proof.
  intros H. apply bind_Ok in H as ([] & w1 & H1 & H2).
  unfold pair_calls. apply for_each_app. exists w1.
  unfold when_truthy in H1, H2. cbn [fst snd]. split.
  - destruct (truthy folder); cbn [for_each]; [|done].
    apply bind_Ok. by exists tt, w1.
  - destruct (truthy file); cbn [for_each]; [|done].
    apply bind_Ok. exists u, w'. split; [done |]. by destruct u.
Qed.

Lemma walk_body_calls (folder_state : nat) (top : string)
    (dirs nondirs : list string) (w w' : world) (u : unit) :
  walk_body folder_state false top dirs nondirs w = Ok u w' →
  for_each (entry_calls (top, dirs, nondirs)) do_call w = Ok u w'.
Proof.
  unfold walk_body, entry_calls. cbn [fst snd].
  generalize (zip_longest dirs nondirs). intros l. revert w.
  induction l as [|[folder file] l IH]; intros w H.
  - done.
  - apply for_each_cons in H as (w1 & H1 & H).
    cbn [mbind list_bind]. apply for_each_app. exists w1.
    split; [by apply walk_pair_calls | by apply IH].
Qed.

(** The walk of a cycle is the sequence of the calls of [make_copy]
    for what it yields. *)
Lemma os_walk_calls (folder_state fuel : nat) (stack : list string)
    (w w' : world) (ys : list yielded) :
  os_walk_for fuel stack (walk_body folder_state false) w = Ok ys w' →
  for_each (calls_of ys) do_call w = Ok tt w'.
Proof.
  revert stack w ys. induction fuel as [|fuel IH]; intros stack w ys H.
  - destruct stack; [|done]. cbn [os_walk_for] in H. by inv_ok H.
  - destruct stack as [|top stack]; cbn [os_walk_for] in H.
    { by inv_ok H. }
    apply bind_Ok in H as (sc & ? & H1 & H). inv_ok H1.
    destruct (scandir w top) as [e|[dirs nondirs]].
    + by eapply IH.
    + apply bind_Ok in H as ([] & w1 & H1 & H).
      apply bind_Ok in H as (rest & w2 & H2 & H). inv_ok H.
      unfold calls_of. cbn [mbind list_bind]. apply for_each_app. exists w1.
      split; [by eapply walk_body_calls | by eapply IH].
Qed.

Lemma walk_step_proper (w w' : world) (P P' : folder_state) :
  (∀ k, st_get k P' = st_get k P) → walk_step w w' P → walk_step w w' P'.
Proof.
  intros HP H.
  eapply (walk_step_trans w w w' empty_state P P'); [| |exact H].
  - intros k. rewrite HP, st_get_empty. set_solver +.
  - apply walk_step_refl, st_get_empty.
Qed.

Lemma calls_step (cs : list call) (w w' : world) (u : unit) :
  distinct_refs w →
  for_each cs do_call w = Ok u w' →
  walk_step w w' (calls_snapshot cs).
Proof.
  revert w. induction cs as [|c cs IH]; intros w Hd H.
  - cbn [for_each] in H. inv_ok H. apply walk_step_refl. by intros [].
  - apply for_each_cons in H as (w1 & H1 & H).
    apply make_copy_step in H1; [|done].
    apply IH in H; [|eapply distinct_refs_step; [apply H1 | done]].
    eapply walk_step_trans; [|exact H1 | exact H].
    intros k. apply calls_snapshot_cons.
Qed.

(** *** The whole walk *)

Lemma os_walk_step (folder_state fuel : nat) (stack : list string)
    (w w' : world) (ys : list yielded) :
  distinct_refs w →
  os_walk_for fuel stack (walk_body folder_state false) w = Ok ys w' →
  walk_step w w' (snapshot_of ys).
Proof.
  intros Hd H%os_walk_calls. apply calls_step in H; [|done].
  eapply walk_step_proper; [|exact H]. intros k. by rewrite calls_snapshot_of.
Qed.

(** ** The deletion loop *)

Lemma path_exists_anti (w w' : world) (s : string) :
  cwd w' = cwd w → disk_le (disk w') (disk w) →
  path_exists w s = false → path_exists w' s = false.
Proof.
  intros Hc Hd Hf. destruct (path_exists w' s) eqn:Hx; [|done].
  rewrite (path_exists_mono w' w) in Hf; done.
Qed.

Lemma logged_since_app (w w' : world) (evs : list event) :
  trace w' = trace w ++ evs → logged_since w w' = evs.
Proof. unfold logged_since. intros ->. by rewrite drop_app_length. Qed.

Lemma key_of_env (w w' : world) (s : string) :
  cwd w' = cwd w → key_of w' s = key_of w s.
Proof. unfold key_of. by intros ->. Qed.

Lemma route_env (w w' : world) (s : string) :
  cwd w' = cwd w → route w' s = route w s.
Proof. unfold route. by intros ->. Qed.

Lemma delete_step_refl (w : world) (D : string → Prop) :
  (∀ p, ¬ D p) → delete_step w w D.
Proof.
  intros HD. split; try done.
  - intros p Hp. by destruct (HD p).
  - exists []. by rewrite app_nil_r.
Qed.

Lemma delete_step_trans (w1 w2 w3 : world) (D1 D2 D : string → Prop) :
  (∀ p, D p ↔ D1 p ∨ D2 p) →
  delete_step w1 w2 D1 → delete_step w2 w3 D2 → delete_step w1 w3 D.
Proof.
  intros HD [E1 R1 H1 L1 G1 (ev1 & T1 & F1) Q1 X1]
            [E2 R2 H2 L2 G2 (ev2 & T2 & F2) Q2 X2].
  split.
  - by eapply same_env_trans.
  - by eapply same_refs_trans.
  - congruence.
  - by etrans.
  - intros p [Hp|Hp]%HD.
    + eapply path_exists_anti; [apply E2 | exact L2 | by apply G1].
    + rewrite <- (mapped_env w1 w2) by done. by apply G2.
  - exists (ev1 ++ ev2). split; [by rewrite T2, T1, app_assoc |].
    apply Forall_app. split.
    + eapply Forall_impl; [exact F1 |]. intros e (k & p & ? & ? & ?).
      exists k, p. split; [done |]. split; [|done]. apply HD. by left.
    + eapply Forall_impl; [exact F2 |]. intros e (k & p & He & Hp & Hx).
      exists k, p. rewrite (mapped_env w1 w2) in He, Hx by done.
      split; [done |]. split; [apply HD; by right |].
      eapply path_exists_mono; [symmetry; apply E1 | exact L1 | done].
  - intros Hall. assert (w2 = w1) as ->.
    { apply Q1. intros p Hp. apply Hall, HD. by left. }
    apply Q2. intros p Hp. apply Hall, HD. by right.
  - intros q e Hq Hout.
    assert (T3 : trace w3 = trace w1 ++ (ev1 ++ ev2))
      by (by rewrite T2, T1, app_assoc).
    rewrite (logged_since_app _ _ _ T3) in Hout.
    apply X2.
    + apply X1; [done |]. rewrite (logged_since_app _ _ _ T1).
      intros k n rap Hin. apply (Hout k n). apply elem_of_app. by left.
    + rewrite (logged_since_app _ _ _ T2).
      intros k n rap Hin. rewrite (key_of_env w1 w2) by apply E1.
      apply (Hout k n). apply elem_of_app. by right.
Qed.

Lemma delete_files_step (directory_object : string) (k : kind)
    (w w' : world) (u : unit) :
  delete_files directory_object k w = Ok u w' →
  delete_step w w' (λ p, p = directory_object).
Proof.
  intros H. unfold delete_files in H.
  apply bind_Ok in H as (src & ? & H1 & H). inv_ok H1.
  apply bind_Ok in H as (rep & ? & H1 & H). inv_ok H1.
  apply bind_Ok in H as (present & ? & H1 & H). inv_ok H1.
  change (PyStr.replace directory_object _ _) with (mapped w directory_object) in *.
  destruct (path_exists w (mapped w directory_object)) eqn:Hex.
  - assert (∃ d', disk_le d' (disk w) ∧
              w' = set_trace (trace w ++ [LogInfo (MsgDeleted k
                       (PyStr.last_segment directory_object)
                       (mapped w directory_object))]) (set_disk d' w) ∧
              path_exists w' (mapped w directory_object) = false ∧
              ∀ q e, disk w !! q = Some e →
                     strip_prefix (key_of w (mapped w directory_object)) q = None →
                     d' !! q = Some e)
      as (d' & Hle & -> & Hgone & Hkeep).
    { destruct k; inv_ok H.
      - apply shutil_rmtree_Ok in H0 as (d' & -> & ? & ? & ?).
        exists d'. split; [done |]. split; [done |].
        split; [by erewrite path_exists_ext | done].
      - apply os_remove_Ok in H0 as (d' & -> & ? & ? & ?).
        exists d'. split; [done |]. split; [done |].
        split; [by erewrite path_exists_ext | done]. }
    split; unfold same_env, same_refs; cbn; try done.
    + by intros p ->.
    + eexists. split; [done |]. apply Forall_singleton. by exists k, directory_object.
    + intros Hall. rewrite Hall in Hex; done.
    + intros q e Hq Hout. apply Hkeep; [done |].
      apply (Hout k (PyStr.last_segment directory_object)).
      unfold logged_since. cbn [trace set_trace].
      rewrite drop_app_length. apply list_elem_of_singleton. done.
  - inv_ok H. split; try done.
    + by intros p ->.
    + exists []. by rewrite app_nil_r.
Qed.

Lemma when_truthy_delete_step (o : option string) (k : kind)
    (w w' : world) (u : unit) :
  when_truthy o (λ x, delete_files x k) w = Ok u w' →
  delete_step w w' (λ p, truthy o = Some p).
Proof.
  intros H. unfold when_truthy in H. destruct (truthy o) as [x|].
  - apply delete_files_step in H.
    eapply delete_step_trans; [|apply (delete_step_refl w (λ _, False)); tauto | exact H].
    intros p. split; [intros [= ->]; by right | intros [[]| ->]; done].
  - inv_ok H. by apply delete_step_refl.
Qed.

Lemma delete_pair_step (folder file : option string) (w w' : world) (u : unit) :
  bind (when_truthy folder (λ x, delete_files x folders))
       (λ _, when_truthy file (λ x, delete_files x files)) w = Ok u w' →
  delete_step w w' (λ p, truthy folder = Some p ∨ truthy file = Some p).
Proof.
  intros H. apply bind_Ok in H as (u1 & w1 & H1 & H2).
  apply when_truthy_delete_step in H1. apply when_truthy_delete_step in H2.
  eapply delete_step_trans; [|exact H1 | exact H2]. done.
Qed.

Lemma truthy_Some_iff (o : option string) (p : string) :
  truthy o = Some p ↔ o = Some p ∧ p ≠ "".
Proof.
  destruct o as [x|]; cbn [truthy]; [|naive_solver].
  case_bool_decide; naive_solver.
Qed.

Lemma delete_zip_step (l1 l2 : list string) (w w' : world) (u : unit) :
  for_each (zip_longest l1 l2)
    (λ '(folder, file),
       bind (when_truthy folder (λ x, delete_files x folders))
            (λ _, when_truthy file (λ x, delete_files x files))) w
  = Ok u w' →
  delete_step w w' (λ p, (p ∈ l1 ∨ p ∈ l2) ∧ p ≠ "").
Proof.
  revert l2 w. induction l1 as [|x l1 IH]; intros l2 w H.
  - cbn [zip_longest] in H. revert w H.
    induction l2 as [|y l2 IH2]; intros w H.
    + cbn [map for_each] in H. inv_ok H. apply delete_step_refl.
      intros p [[?%elem_of_nil|?%elem_of_nil] _]; done.
    + cbn [map] in H. apply for_each_cons in H as (w1 & H1 & H).
      apply delete_pair_step in H1. apply IH2 in H.
      eapply delete_step_trans; [|exact H1 | exact H].
      intros p. cbv beta. rewrite !truthy_Some_iff, !elem_of_cons.
      rewrite elem_of_nil. naive_solver.
  - destruct l2 as [|y l2]; cbn [zip_longest] in H;
      apply for_each_cons in H as (w1 & H1 & H);
      apply delete_pair_step in H1; apply IH in H;
      (eapply delete_step_trans; [|exact H1 | exact H]);
      intros p; cbv beta; rewrite !truthy_Some_iff, !elem_of_cons;
      rewrite ?elem_of_nil; naive_solver.
Qed.

Lemma delete_loop_step (X Y : gset string) (w w' : world) (u : unit) :
  delete_loop X Y w = Ok u w' →
  delete_step w w' (λ p, (p ∈ X ∨ p ∈ Y) ∧ p ≠ "").
Proof.
  intros H. apply delete_zip_step in H.
  eapply delete_step_trans;
    [|apply (delete_step_refl w (λ _, False)); tauto | exact H].
  intros p. cbv beta. rewrite !iteration_perm, !elem_of_elements. tauto.
Qed.

(** ** A reconciliation cycle *)

Lemma rotate_Ok (w : world) : rotate w = Ok tt (rotated w).
Proof. reflexivity. Qed.

Lemma deleted_Ok (k : kind) (w : world) :
  deleted k w
  = Ok (st_get k (replica_snapshot w) ∖ st_get k (source_snapshot w)) w.
Proof. reflexivity. Qed.

Lemma folder_state_eq (a b : folder_state) :
  (∀ k, st_get k a = st_get k b) → a = b.
Proof.
  intros H. destruct a as [a1 a2], b as [b1 b2].
  f_equal; [apply (H folders) | apply (H files)].
Qed.

Lemma rotated_replica (w : world) :
  source_folder_state w < length (heap w) →
  replica_snapshot (rotated w) = source_snapshot w.
Proof.
  intros Hs. unfold replica_snapshot, source_snapshot, rotated. cbn.
  by rewrite lookup_total_app_l.
Qed.

Lemma rotated_ready (w : world) :
  source_folder_state w < length (heap w) → ready (rotated w).
Proof.
  intros Hs. unfold ready, distinct_refs, source_snapshot, rotated. cbn.
  rewrite length_app. cbn. split; [lia |].
  by rewrite list_lookup_total_middle.
Qed.

(** The parts of a call of [check_folder_state] that did not raise. *)
Lemma check_folder_state_Ok (fuel : nat) (directory : string)
    (folder_state : nat) (state_only : bool) (w w' : world) (u : unit) :
  check_folder_state fuel directory folder_state state_only w = Ok u w' →
  ∃ ys w1 w2,
    os_walk_for fuel [directory] (walk_body folder_state state_only) w
      = Ok ys w1 ∧
    delete_loop
      (st_folders (replica_snapshot w1) ∖ st_folders (source_snapshot w1))
      (st_files (replica_snapshot w1) ∖ st_files (source_snapshot w1)) w1
      = Ok tt w2 ∧
    w' = rotated w2.
Proof.
  intros H. unfold check_folder_state in H.
  apply bind_Ok in H as (ys & w1 & Hw & H).
  apply bind_Ok in H as (X & ? & H1 & H). rewrite deleted_Ok in H1.
  injection H1 as <- <-.
  apply bind_Ok in H as (Y & ? & H1 & H). rewrite deleted_Ok in H1.
  injection H1 as <- <-.
  apply bind_Ok in H as ([] & w2 & Hd & H). rewrite rotate_Ok in H.
  injection H as <-. by exists ys, w1, w2.
Qed.

(** A cycle, taken apart: the walk registers the snapshot of what it
    yielded, the deletion loop runs on the paths of the previous
    replica snapshot that are not in it, and the snapshot becomes the
    replica snapshot. *)
Lemma cycle_parts (fuel : nat) (directory : string) (folder_state : nat)
    (w w' : world) (u : unit) :
  ready w →
  check_folder_state fuel directory folder_state false w = Ok u w' →
  ∃ ys w1 w2,
    os_walk_for fuel [directory] (walk_body folder_state false) w = Ok ys w1 ∧
    walk_step w w1 (snapshot_of ys) ∧
    source_snapshot w1 = snapshot_of ys ∧
    (∀ k, st_get k (replica_snapshot w1) ∖ st_get k (source_snapshot w1)
          = st_get k (replica_snapshot w) ∖ st_get k (snapshot_of ys)) ∧
    delete_step w1 w2
      (λ p, (p ∈ st_folders (replica_snapshot w) ∖ st_folders (snapshot_of ys) ∨
             p ∈ st_files (replica_snapshot w) ∖ st_files (snapshot_of ys)) ∧
            p ≠ "") ∧
    w' = rotated w2 ∧
    replica_snapshot w' = snapshot_of ys ∧
    ready w'.
Proof.
  intros [Hd Hempty] H.
  apply check_folder_state_Ok in H as (ys & w1 & w2 & Hw & Hdel & ->).
  pose proof (os_walk_step _ _ _ _ _ _ Hd Hw) as Hstep.
  assert (Hsnap : source_snapshot w1 = snapshot_of ys).
  { apply folder_state_eq. intros k. rewrite (ws_source _ _ _ Hstep).
    rewrite Hempty, st_get_empty. set_solver +. }
  assert (Hdiff : ∀ k,
    st_get k (replica_snapshot w1) ∖ st_get k (source_snapshot w1)
    = st_get k (replica_snapshot w) ∖ st_get k (snapshot_of ys)).
  { intros k. rewrite Hsnap.
    pose proof (ws_replica_lo _ _ _ Hstep k) as Hlo.
    pose proof (ws_replica_hi _ _ _ Hstep k) as Hhi.
    set_solver + Hlo Hhi. }
  apply delete_loop_step in Hdel.
  pose proof (Hdiff folders) as Hf. pose proof (Hdiff files) as Hg.
  cbn [st_get] in Hf, Hg. rewrite Hf, Hg in Hdel.
  assert (Hs2 : source_folder_state w2 < length (heap w2)).
  { destruct (ds_refs _ _ _ Hdel) as (-> & _ & ->).
    destruct (ws_refs _ _ _ Hstep) as (-> & _ & ->). apply Hd. }
  exists ys, w1, w2. repeat (split; [done |]). split.
  - rewrite rotated_replica by done. rewrite <- Hsnap.
    unfold source_snapshot.
    destruct (ds_refs _ _ _ Hdel) as (-> & _ & _).
    by rewrite (ds_heap _ _ _ Hdel).
  - by apply rotated_ready.
Qed.

(** ** What one call of [make_copy] does, by the existence check *)


(** ** The sets a cycle deletes and copies *)


(** ** The walk that only collects: the baseline at startup *)

Lemma do_add_Ok (l : nat) (c : call) (w : world) :
  do_add l c w
  = Ok tt (set_heap (<[l := st_add c.2 (to_source w (call_path c))
                              (heap w !!! l)]> (heap w)) w).
Proof. reflexivity. Qed.

Lemma st_get_map (k : kind) (f : string → string) (P : folder_state) :
  st_get k (st_map f P) = set_map f (st_get k P).
Proof. by destruct k. Qed.

Lemma collected_empty (l : nat) (P : folder_state) (w : world) :
  l < length (heap w) → (∀ k, st_get k P = ∅) → collected l P w = w.
Proof.
  intros Hl HP. unfold collected.
  destruct w as [s r sp rp i lp h d c t]; unfold set_heap; cbn in *. f_equal.
  apply list_insert_id. rewrite list_lookup_lookup_total_lt by done.
  f_equal. apply folder_state_eq. intros k.
  rewrite st_get_union, HP. set_solver +.
Qed.

Lemma collected_add (l : nat) (k : kind) (p : string) (P : folder_state)
    (w : world) :
  l < length (heap w) →
  collected l P (set_heap (<[l := st_add k p (heap w !!! l)]> (heap w)) w)
  = collected l (st_union (st_add k p empty_state) P) w.
Proof.
  intros Hl. unfold collected, set_heap. cbn [heap]. f_equal.
  rewrite list_lookup_total_insert_eq by done.
  rewrite list_insert_insert_eq. f_equal.
  apply folder_state_eq. intros k'.
  rewrite !st_get_union, st_get_add, st_get_single.
  case_decide; set_solver +.
Qed.

Lemma collected_proper (l : nat) (P P' : folder_state) (w : world) :
  (∀ k, st_get k P = st_get k P') → collected l P w = collected l P' w.
Proof. intros HP. by rewrite (folder_state_eq P P'). Qed.

Lemma collect_calls (l : nat) (cs : list call) (w w' : world) (u : unit) :
  l < length (heap w) →
  for_each cs (do_add l) w = Ok u w' →
  w' = collected l (st_map (to_source w) (calls_snapshot cs)) w.
Proof.
  revert w w'. induction cs as [|c cs IH]; intros w w' Hl H.
  - cbn [for_each] in H. inv_ok H. symmetry.
    apply collected_empty; [done |]. intros k.
    rewrite st_get_map. unfold calls_snapshot. cbn [fmap list_fmap st_unions foldr].
    rewrite st_get_empty. apply set_map_empty.
  - apply for_each_cons in H as (w1 & H1 & H).
    rewrite do_add_Ok in H1. injection H1 as <-.
    apply IH in H; [|cbn [heap set_heap]; by rewrite length_insert].
    rewrite H. change (to_source (set_heap _ w)) with (to_source w).
    rewrite collected_add by done.
    apply collected_proper. intros k.
    rewrite st_get_union, !st_get_map, calls_snapshot_cons, !st_get_single.
    case_decide; rewrite set_map_union_L, ?set_map_singleton_L, ?set_map_empty;
      done.
Qed.

Lemma collect_pair_calls (l : nat) (top : string) (folder file : option string)
    (w w' : world) (u : unit) :
  bind (when_truthy folder (λ x, bind (get_absolute_path top x)
                                   (λ p, set_add l folders p)))
       (λ _, when_truthy file (λ x, bind (get_absolute_path top x)
                                      (λ p, set_add l files p))) w = Ok u w' →
  for_each (pair_calls top (folder, file)) (do_add l) w = Ok u w'.
Proof.
  intros H. apply bind_Ok in H as ([] & w1 & H1 & H2).
  unfold pair_calls. apply for_each_app. exists w1.
  unfold when_truthy in H1, H2. cbn [fst snd]. split.
  - destruct (truthy folder); cbn [for_each]; [|done].
    apply bind_Ok. by exists tt, w1.
  - destruct (truthy file); cbn [for_each]; [|done].
    apply bind_Ok. exists u, w'. split; [done |]. by destruct u.
Qed.

Lemma collect_body_calls (l : nat) (top : string) (dirs nondirs : list string)
    (w w' : world) (u : unit) :
  walk_body l true top dirs nondirs w = Ok u w' →
  for_each (entry_calls (top, dirs, nondirs)) (do_add l) w = Ok u w'.
Proof.
  unfold walk_body, entry_calls. cbn [fst snd].
  generalize (zip_longest dirs nondirs). intros zs. revert w.
  induction zs as [|[folder file] zs IH]; intros w H.
  - done.
  - apply for_each_cons in H as (w1 & H1 & H).
    cbn [mbind list_bind]. apply for_each_app. exists w1.
    split; [by apply collect_pair_calls | by apply IH].
Qed.

Lemma scandir_ext (w w' : world) (top : string) :
  cwd w' = cwd w → disk w' = disk w → scandir w' top = scandir w top.
Proof. unfold scandir, resolve. by intros -> ->. Qed.

Lemma scan_S (fuel : nat) (top : string) (stack : list string) (w : world) :
  scan (S fuel) (top :: stack) w
  = match scandir w top with
    | inl _ => scan fuel stack w
    | inr (dirs, nondirs) =>
        match scan fuel (map (PyStr.join top) dirs ++ stack) w with
        | Ok rest w' => Ok ((top, dirs, nondirs) :: rest) w'
        | Raised e w' => Raised e w'
        | OutOfFuel => OutOfFuel
        end
    end.
Proof.
  unfold scan. cbn [os_walk_for]. unfold bind, gets, ret.
  by destruct (scandir w top) as [e|[dirs nondirs]].
Qed.

Lemma scan_world (fuel : nat) (stack : list string) (w w' : world)
    (ys : list yielded) :
  scan fuel stack w = Ok ys w' → w' = w.
Proof.
  revert stack ys. induction fuel as [|fuel IH]; intros stack ys H.
  - destruct stack; [|done]. by injection H as <- <-.
  - destruct stack as [|top stack]; [by injection H as <- <-|].
    rewrite scan_S in H. destruct (scandir w top) as [e|[dirs nondirs]].
    + by eapply IH.
    + destruct (scan fuel _ w) as [rest w1| |] eqn:Hs; [|done|done].
      injection H as <- <-. by eapply IH.
Qed.

(** A walk whose body leaves the disk alone yields what the walk
    without a body yields. *)
Lemma walk_scan (body : string → list string → list string → M unit)
    (I : world → Prop) :
  (∀ top dirs nondirs w w1 u,
     I w → body top dirs nondirs w = Ok u w1 →
     I w1 ∧ disk w1 = disk w ∧ cwd w1 = cwd w) →
  ∀ fuel stack w ys w' w0,
    I w → os_walk_for fuel stack body w = Ok ys w' →
    disk w0 = disk w → cwd w0 = cwd w →
    scan fuel stack w0 = Ok ys w0.
Proof.
  intros Hbody fuel. induction fuel as [|fuel IH];
    intros stack w ys w' w0 HI H Hd Hc.
  - destruct stack; [|done]. cbn [os_walk_for] in H. by inv_ok H.
  - destruct stack as [|top stack]; cbn [os_walk_for] in H.
    { by inv_ok H. }
    rewrite scan_S, (scandir_ext w w0) by done.
    apply bind_Ok in H as (sc & ? & H1 & H). inv_ok H1.
    destruct (scandir w top) as [e|[dirs nondirs]].
    + by eapply IH.
    + apply bind_Ok in H as ([] & w1 & H1 & H).
      apply bind_Ok in H as (rest & w2 & H2 & H). inv_ok H.
      apply Hbody in H1 as (HI1 & Hd1 & Hc1); [|done].
      erewrite IH; [done | exact HI1 | exact H2 | congruence | congruence].
Qed.

(** The collecting walk adds the snapshot of what it yields, mapped
    into the namespace of the source, and yields what a walk without a
    body yields. *)
Lemma collect_walk (l fuel : nat) (stack : list string) (w w' : world)
    (ys : list yielded) :
  l < length (heap w) →
  os_walk_for fuel stack (walk_body l true) w = Ok ys w' →
  w' = collected l (st_map (to_source w) (snapshot_of ys)) w ∧
  scan fuel stack w = Ok ys w.
Proof.
  intros Hl H.
  assert (Hbody : ∀ top dirs nondirs w w1 u,
    l < length (heap w) ∧ to_source w = to_source w →
    walk_body l true top dirs nondirs w = Ok u w1 →
    (l < length (heap w1) ∧ to_source w1 = to_source w1) ∧
    disk w1 = disk w ∧ cwd w1 = cwd w).
  { intros top dirs nondirs v v1 u [Hv _] Hb.
    apply collect_body_calls, collect_calls in Hb; [|done]. subst v1.
    cbn. by rewrite length_insert. }
  split; [|by eapply (walk_scan _ _ Hbody); eauto].
  assert (Hc : for_each (calls_of ys) (do_add l) w = Ok tt w').
  { clear Hbody. revert stack w ys Hl H.
    induction fuel as [|fuel IH]; intros stack w ys Hl H.
    - destruct stack; [|done]. cbn [os_walk_for] in H. by inv_ok H.
    - destruct stack as [|top stack]; cbn [os_walk_for] in H.
      { by inv_ok H. }
      apply bind_Ok in H as (sc & ? & H1 & H). inv_ok H1.
      destruct (scandir w top) as [e|[dirs nondirs]].
      + by eapply IH.
      + apply bind_Ok in H as ([] & w1 & H1 & H).
        apply bind_Ok in H as (rest & w2 & H2 & H). inv_ok H.
        apply collect_body_calls in H1.
        pose proof (collect_calls _ _ _ _ _ Hl H1) as Hw1.
        apply IH in H2; [|subst w1; cbn; by rewrite length_insert].
        unfold calls_of. cbn [mbind list_bind]. apply for_each_app. eauto. }
  apply collect_calls in Hc; [|done]. rewrite Hc. f_equal. f_equal.
  apply folder_state_eq. intros k. by rewrite calls_snapshot_of.
Qed.

(** ** Startup *)

Lemma iteration_nil : iteration [] = [].
Proof. apply Permutation_nil_r. by rewrite iteration_perm. Qed.

Lemma delete_loop_empty (w : world) : delete_loop ∅ ∅ w = Ok tt w.
Proof. unfold delete_loop. by rewrite elements_empty, iteration_nil. Qed.

(** The collecting call at startup: with the two attributes aliased the
    two sets of deletions are empty, whatever the replica holds. *)
Lemma startup_collect (fuel : nat) (directory : string) (w w' : world) (u : unit) :
  aliased w →
  check_folder_state fuel directory (replica_folder_state w) true w = Ok u w' →
  ∃ ys,
    scan fuel [directory] w = Ok ys w ∧
    w' = rotated (collected (replica_folder_state w)
                    (st_map (to_source w) (snapshot_of ys)) w).
Proof.
  intros [Hal Hr] H.
  apply check_folder_state_Ok in H as (ys & w1 & w2 & Hw & Hdel & ->).
  apply collect_walk in Hw as [-> Hscan]; [|done].
  exists ys. split; [done |].
  unfold source_snapshot, replica_snapshot in Hdel.
  cbn [collected set_heap source_folder_state replica_folder_state heap] in Hdel.
  rewrite Hal in Hdel. rewrite !difference_diag_L in Hdel.
  rewrite delete_loop_empty in Hdel. by injection Hdel as <-.
Qed.

Lemma run_initial_spec (fuel : nat) (w w' : world) (u : unit) :
  aliased w →
  replica_snapshot w = empty_state →
  run_initial fuel w = Ok u w' →
  ∃ ys,
    scan fuel [replica_directory_path w] w = Ok ys w ∧
    replica_snapshot w' = st_map (to_source w) (snapshot_of ys) ∧
    ready w' ∧
    same_env w w' ∧
    disk w' = disk w ∧
    trace w' = trace w ++ [LogInfo MsgRunning].
Proof.
  intros [Hal Hr] Hempty H. unfold run_initial in H.
  apply bind_Ok in H as ([] & ? & H1 & H). inv_ok H1.
  apply bind_Ok in H as (rep & ? & H1 & H). inv_ok H1.
  apply bind_Ok in H as (r & ? & H1 & H). inv_ok H1.
  cbn [replica_directory_path replica_folder_state set_trace] in H.
  set (w0 := set_trace _ w) in *.
  apply (startup_collect fuel _ w0) in H as (ys & Hscan & ->); [|done].
  assert (Hscan' : scan fuel [replica_directory_path w] w = Ok ys w).
  { eapply (walk_scan (λ _ _ _, ret tt) (λ _, True));
      [|done | exact Hscan | done | done].
    intros ? ? ? ? ? ? _ Hb. by inv_ok Hb. }
  exists ys. split; [done |].
  assert (Hs : source_folder_state (collected (replica_folder_state w)
                 (st_map (to_source w0) (snapshot_of ys)) w0)
               < length (heap (collected (replica_folder_state w)
                 (st_map (to_source w0) (snapshot_of ys)) w0))).
  { cbn. rewrite length_insert. by rewrite Hal. }
  split; [|split; [by apply rotated_ready | done]].
  rewrite rotated_replica by done.
  unfold source_snapshot. cbn. rewrite Hal.
  rewrite list_lookup_total_insert_eq by done.
  unfold replica_snapshot in Hempty. rewrite Hempty.
  apply folder_state_eq. intros k. rewrite st_get_union, st_get_empty.
  set_solver +.
Qed.

(** ** A cycle on a replica that already mirrors the source *)

Lemma make_copy_present (directory_path object_name : string) (k : kind)
    (w : world) :
  path_exists w (mapped w (PyStr.join directory_path object_name)) = true →
  make_copy directory_path object_name k w
  = Ok tt (set_heap
             (<[source_folder_state w :=
                  st_add k (PyStr.join directory_path object_name)
                    (heap w !!! source_folder_state w)]> (heap w)) w).
Proof.
  intros H. unfold make_copy, bind, os_path_exists, gets, set_add, modify, ret.
  unfold mapped in H. cbv beta. by rewrite H.
Qed.

Lemma calls_present (cs : list call) (w : world) :
  (∀ c, c ∈ cs → path_exists w (mapped w (call_path c)) = true) →
  ∃ w', for_each cs do_call w = Ok tt w' ∧
        same_env w w' ∧ disk w' = disk w ∧ trace w' = trace w.
Proof.
  revert w. induction cs as [|c cs IH]; intros w Hall.
  - exists w. split; [done |]. split; [apply same_env_refl | done].
  - set (w1 := set_heap
         (<[source_folder_state w :=
              st_add c.2 (call_path c) (heap w !!! source_folder_state w)]>
            (heap w)) w).
    destruct (IH w1) as (w' & Hrun & Henv & Hd & Ht).
    { intros c' Hc'. change (mapped w1) with (mapped w).
      rewrite (path_exists_ext w w1) by done. apply Hall. by right. }
    exists w'. split; [|done].
    apply for_each_cons. exists w1. split; [|done].
    apply make_copy_present, Hall. by left.
Qed.

Lemma walk_pair_calls_inv (top : string) (folder file : option string)
    (w w' : world) (u : unit) :
  for_each (pair_calls top (folder, file)) do_call w = Ok u w' →
  bind (when_truthy folder (λ x, make_copy top x folders))
       (λ _, when_truthy file (λ x, make_copy top x files)) w = Ok u w'.
Proof.
  unfold pair_calls. intros (w1 & H1 & H2)%for_each_app. cbn [fst snd] in *.
  apply bind_Ok. exists tt, w1. unfold when_truthy. split.
  - destruct (truthy folder); [|done].
    apply for_each_cons in H1 as (w2 & H1 & H). cbn [for_each] in H.
    inv_ok H. exact H1.
  - destruct (truthy file); [|done].
    apply for_each_cons in H2 as (w2 & H2 & H). cbn [for_each] in H.
    inv_ok H. exact H2.
Qed.

Lemma walk_body_calls_inv (folder_state : nat) (top : string)
    (dirs nondirs : list string) (w w' : world) (u : unit) :
  for_each (entry_calls (top, dirs, nondirs)) do_call w = Ok u w' →
  walk_body folder_state false top dirs nondirs w = Ok u w'.
Proof.
  unfold walk_body, entry_calls. cbn [fst snd].
  generalize (zip_longest dirs nondirs). intros zs. revert w.
  induction zs as [|[folder file] zs IH]; intros w H.
  - done.
  - cbn [mbind list_bind] in H. apply for_each_app in H as (w1 & H1 & H).
    apply for_each_cons. exists w1.
    split; [by apply walk_pair_calls_inv | by apply IH].
Qed.

(** When every path the walk meets is present at its mapped place, the
    walk ends, yields what the walk without a body yields, and leaves
    disk and log as they were. *)
Lemma quiet_walk (folder_state fuel : nat) (stack : list string)
    (w0 w : world) (ys : list yielded) :
  scan fuel stack w0 = Ok ys w0 →
  disk w = disk w0 → cwd w = cwd w0 →
  (∀ c, c ∈ calls_of ys → path_exists w (mapped w (call_path c)) = true) →
  ∃ w', os_walk_for fuel stack (walk_body folder_state false) w = Ok ys w' ∧
        same_env w w' ∧ disk w' = disk w ∧ trace w' = trace w.
Proof.
  revert stack w ys. induction fuel as [|fuel IH]; intros stack w ys Hs Hd Hc Hall.
  - destruct stack; [|done]. injection Hs as <-.
    exists w. split; [done |]. split; [apply same_env_refl | done].
  - destruct stack as [|top stack].
    { injection Hs as <-.
      exists w. split; [done |]. split; [apply same_env_refl | done]. }
    rewrite scan_S in Hs. cbn [os_walk_for]. unfold bind at 1. cbn [gets].
    rewrite (scandir_ext w0 w) by done.
    destruct (scandir w0 top) as [e|[dirs nondirs]].
    + by apply IH.
    + destruct (scan fuel _ w0) as [rest w1| |] eqn:Hrest; [|done|done].
      injection Hs as <- ->.
      destruct (calls_present (entry_calls (top, dirs, nondirs)) w)
        as (w1 & Hrun & Henv & Hd1 & Ht1).
      { intros c Hin. apply Hall. unfold calls_of. cbn [mbind list_bind].
        apply elem_of_app. by left. }
      apply (walk_body_calls_inv folder_state) in Hrun.
      destruct (IH _ w1 rest Hrest) as (w' & Hwalk & Henv' & Hd' & Ht').
      { congruence. }
      { destruct Henv as (_ & _ & _ & _ & ->). done. }
      { intros c Hin. rewrite (mapped_env w w1) by done.
        rewrite (path_exists_ext w w1) by (done || apply Henv).
        apply Hall. unfold calls_of. cbn [mbind list_bind].
        apply elem_of_app. by right. }
      exists w'. split.
      * unfold bind. rewrite Hrun, Hwalk. done.
      * split; [by eapply same_env_trans |]. split; congruence.
Qed.

Lemma elem_of_calls_snapshot (c : call) (cs : list call) :
  c ∈ cs → call_path c ∈ st_get c.2 (calls_snapshot cs).
Proof.
  induction 1 as [c cs|c c' cs Hin IH]; rewrite calls_snapshot_cons.
  - rewrite st_get_single, decide_True by done. set_solver +.
  - set_solver + IH.
Qed.

(** C4, as amended. Two cycles in a row: when the walk of the source in
    the second cycle yields the snapshot the first cycle stored, and
    the first cycle deleted nothing at a replica path that a path of
    that snapshot is mapped to, or goes through, the second cycle ends
    without a copy and without a deletion: disk and log are as the
    first cycle left them. The first cycle may have copied, and may have
    deleted elsewhere. *)
Theorem second_cycle_quiet (fuel0 fuel : nat) (w0 w1 : world) (ys : list yielded) :
  ready w0 →
  check_folder_state fuel0 (source_directory_path w0)
    (source_folder_state w0) false w0 = Ok tt w1 →
  scan fuel [source_directory_path w1] w1 = Ok ys w1 →
  snapshot_of ys = replica_snapshot w1 →
  (∀ k n rap k' p t,
     LogInfo (MsgDeleted k n rap) ∈ logged_since w0 w1 →
     p ∈ st_get k' (snapshot_of ys) → t ∈ route w0 (mapped w0 p) →
     strip_prefix (key_of w0 rap) t = None) →
  ∃ w2,
    check_folder_state fuel (source_directory_path w1)
      (source_folder_state w1) false w1 = Ok tt w2 ∧
    disk w2 = disk w1 ∧ trace w2 = trace w1.
Proof.
  intros Hready0 Hfirst Hscan Hsame Hclear.
  apply cycle_parts in Hfirst
    as (ys0 & wa & wb & _ & Hstep0 & _ & _ & Hdel0 & -> & Hrep0 & Hready);
    [|done].
  assert (Henv0 : same_env w0 wb)
    by (eapply same_env_trans; [apply Hstep0 | apply Hdel0]).
  destruct (ws_trace _ _ _ Hstep0) as (eva & Ta & _).
  destruct (ds_trace _ _ _ Hdel0) as (evb & Tb & _).
  assert (Hall : ∀ k p, p ∈ st_get k (snapshot_of ys) →
                        path_exists (rotated wb) (mapped (rotated wb) p) = true).
  { intros k p Hp.
    change (path_exists (rotated wb) (mapped (rotated wb) p))
      with (path_exists wb (mapped wb p)).
    rewrite (mapped_env w0 wb) by done.
    apply (path_exists_frame wa); [apply Hdel0 | |].
    - intros t e Ht Hd. apply (ds_frame _ _ _ Hdel0); [done |].
      intros k0 n rap Hin.
      rewrite (key_of_env w0 wa) by apply Hstep0.
      rewrite (route_env w0 wa) in Ht by apply Hstep0.
      apply (Hclear k0 n rap k p t); [|done|done].
      rewrite (logged_since_app _ _ _ Tb) in Hin.
      assert (T : trace (rotated wb) = trace w0 ++ (eva ++ evb)).
      { change (trace (rotated wb)) with (trace wb).
        by rewrite Tb, Ta, app_assoc. }
      rewrite (logged_since_app _ _ _ T). apply elem_of_app. by right.
    - apply (ws_present _ _ _ Hstep0 k). by rewrite <- Hrep0, <- Hsame. }
  set (w1 := rotated wb) in *.
  destruct (quiet_walk (source_folder_state w1) fuel
              [source_directory_path w1] w1 w1 ys)
    as (w' & Hwalk & Henv & Hd & Ht); [done | done | done | |].
  { intros c Hc. apply (Hall c.2).
    rewrite <- calls_snapshot_of. by apply elem_of_calls_snapshot. }
  pose proof (os_walk_step _ _ _ _ _ _ (proj1 Hready) Hwalk) as Hstep.
  destruct (ws_quiet _ _ _ Hstep Hall) as (_ & _ & Hrep).
  assert (Hsnap : source_snapshot w' = snapshot_of ys).
  { apply folder_state_eq. intros k. rewrite (ws_source _ _ _ Hstep).
    rewrite (proj2 Hready), st_get_empty. set_solver +. }
  exists (rotated w'). split; [|done].
  unfold check_folder_state.
  unfold bind at 1. rewrite Hwalk.
  unfold bind at 1. rewrite deleted_Ok.
  unfold bind at 1. rewrite deleted_Ok.
  cbn [st_get]. rewrite Hrep, Hsnap, <- Hsame, !difference_diag_L.
  unfold bind. by rewrite delete_loop_empty, rotate_Ok.
Qed.

(** ** The rotation of the baseline *)

(** What a call of [make_copy] does to the dict of the replica
    snapshot: the path is added when it is copied, and only then. *)
Lemma make_copy_replica (directory_path object_name : string) (k : kind)
    (w w' : world) (u : unit) :
  distinct_refs w →
  make_copy directory_path object_name k w = Ok u w' →
  replica_snapshot w'
  = if path_exists w (mapped w (PyStr.join directory_path object_name))
    then replica_snapshot w
    else st_add k (PyStr.join directory_path object_name) (replica_snapshot w).
Proof.
  intros (Hne & Hs & Hr) H. unfold make_copy in H.
  apply bind_Ok in H as (src & ? & H1 & H). inv_ok H1.
  apply bind_Ok in H as (rep & ? & H1 & H). inv_ok H1.
  apply bind_Ok in H as (present & ? & H1 & H). inv_ok H1.
  apply bind_Ok in H as (u1 & w1 & H1 & H). inv_ok H.
  set (p := PyStr.join directory_path object_name) in *.
  change (PyStr.replace p _ _) with (mapped w p) in *.
  destruct (path_exists w (mapped w p)) eqn:Hex; cbn [negb] in H1.
  - inv_ok H1. unfold replica_snapshot. cbn.
    by rewrite list_lookup_total_insert_ne.
  - apply bind_Ok in H1 as (r & ? & H2 & H1). inv_ok H2.
    apply bind_Ok in H1 as (u2 & ? & H2 & H1). inv_ok H2.
    set (h1 := <[replica_folder_state w := _]> (heap w)) in *.
    apply copy_missing in H1 as (d' & Hle & -> & Hnow);
      [|by erewrite path_exists_ext].
    unfold replica_snapshot. cbn.
    rewrite list_lookup_total_insert_ne by done.
    unfold h1. by rewrite list_lookup_total_insert_eq.
Qed.

(** C8, as amended. At the end of a cycle the replica snapshot is
    exactly the snapshot of the source walked in that cycle: the
    attribute is set to the dict the walk filled, which started empty,
    and the source attribute gets a new empty dict. During the walk the
    dict of the previous replica snapshot is changed in place, by
    [make_copy]: every call that copies adds its path to it, a call
    that does not copy leaves it as it is, and the attribute points to
    it all along. The deletion loop and the two assignments leave that
    dict as the walk left it; so it keeps its paths and gets the copied
    paths of the new snapshot. *)
Theorem baseline_rotation (fuel : nat) (directory : string) (folder_state : nat)
    (w w' : world) (u : unit) :
  ready w →
  check_folder_state fuel directory folder_state false w = Ok u w' →
  ∃ ys w1,
    os_walk_for fuel [directory] (walk_body folder_state false) w = Ok ys w1 ∧
    replica_snapshot w' = snapshot_of ys ∧
    replica_folder_state w' = source_folder_state w ∧
    source_snapshot w' = empty_state ∧
    source_folder_state w' = length (heap w) ∧
    (∀ k, st_get k (replica_snapshot w)
            ⊆ st_get k (heap w' !!! replica_folder_state w) ∧
          st_get k (heap w' !!! replica_folder_state w)
            ⊆ st_get k (replica_snapshot w) ∪ st_get k (snapshot_of ys)) ∧
    replica_folder_state w1 = replica_folder_state w ∧
    heap w' !!! replica_folder_state w = replica_snapshot w1 ∧
    ∀ pre c post,
      calls_of ys = pre ++ c :: post →
      ∃ wc wc',
        for_each pre do_call w = Ok tt wc ∧
        do_call c wc = Ok tt wc' ∧
        for_each post do_call wc' = Ok tt w1 ∧
        replica_folder_state wc = replica_folder_state w ∧
        replica_folder_state wc' = replica_folder_state w ∧
        replica_snapshot wc'
        = if path_exists wc (mapped w (call_path c))
          then replica_snapshot wc
          else st_add c.2 (call_path c) (replica_snapshot wc).
Proof.
  intros Hready H.
  apply cycle_parts in H
    as (ys & w1 & w2 & Hw & Hstep & Hsnap & _ & Hdel & -> & Hrep & Hready');
    [|done].
  destruct (ws_refs _ _ _ Hstep) as (Hs1 & Hr1 & Hl1).
  destruct (ds_refs _ _ _ Hdel) as (Hs2 & Hr2 & Hl2).
  assert (Hold : heap (rotated w2) !!! replica_folder_state w
                 = replica_snapshot w1).
  { cbn [rotated heap set_source_folder_state set_heap
         set_replica_folder_state].
    rewrite lookup_total_app_l by (rewrite Hl2, Hl1; apply Hready).
    rewrite (ds_heap _ _ _ Hdel). unfold replica_snapshot. by rewrite Hr1. }
  exists ys, w1. split; [done |]. split; [done |].
  split; [cbn; congruence |]. split; [apply Hready' |].
  split; [cbn; congruence |]. split.
  { intros k. rewrite Hold.
    split; [apply (ws_replica_lo _ _ _ Hstep) | apply (ws_replica_hi _ _ _ Hstep)]. }
  split; [done |]. split; [done |].
  intros pre c post Hsplit.
  pose proof (os_walk_calls _ _ _ _ _ _ Hw) as Hcalls.
  rewrite Hsplit in Hcalls.
  apply for_each_app in Hcalls as (wc & Hpre & Hrest).
  apply for_each_cons in Hrest as (wc' & Hc & Hpost).
  exists wc, wc'. repeat (split; [done |]).
  pose proof (calls_step _ _ _ _ (proj1 Hready) Hpre) as Hpre'.
  assert (Hdc : distinct_refs wc)
    by (eapply distinct_refs_step; [apply Hpre' | apply Hready]).
  pose proof (make_copy_step _ _ _ _ _ _ Hdc Hc) as Hc'.
  destruct (ws_refs _ _ _ Hpre') as (_ & Hrc & _).
  destruct (ws_refs _ _ _ Hc') as (_ & Hrc' & _).
  split; [done |]. split; [congruence |].
  rewrite <- (mapped_env w wc) by apply Hpre'.
  by apply (make_copy_replica _ _ _ _ _ tt).
Qed.

(** ** A walk whose root is not a directory *)

Lemma scandir_inl (w : world) (top : string) :
  stat w top ≠ Some Dir → ∃ e, scandir w top = inl e.
Proof.
  unfold stat, scandir. destruct (resolve w top) as [e|p]; [eauto |].
  destruct (disk w !! p) as [[c|]|]; [eauto | done | eauto].
Qed.

(** C7, as amended. When the root of the walk does not exist or is not
    a directory, the error of the listing is ignored: the walk yields
    nothing, whatever the body, and raises nothing; the collecting call
    at startup returns with the snapshot as it was. *)
Theorem walk_of_missing_root (fuel : nat) (directory : string) (w : world) :
  stat w directory ≠ Some Dir →
  (∀ body, os_walk_for (S fuel) [directory] body w = Ok [] w) ∧
  (aliased w →
   check_folder_state (S fuel) directory (replica_folder_state w) true w
   = Ok tt (rotated w)).
Proof.
  intros [e He]%scandir_inl.
  assert (Hwalk : ∀ body, os_walk_for (S fuel) [directory] body w = Ok [] w).
  { intros body. cbn [os_walk_for]. unfold bind, gets. rewrite He.
    by destruct fuel. }
  split; [done |]. intros [Hal Hr].
  unfold check_folder_state. unfold bind at 1. rewrite Hwalk.
  unfold bind at 1. rewrite deleted_Ok.
  unfold bind at 1. rewrite deleted_Ok.
  unfold replica_snapshot, source_snapshot. rewrite Hal, !difference_diag_L.
  unfold bind. by rewrite delete_loop_empty, rotate_Ok.
Qed.

(** ** The arguments *)






(** ** The first cycle after startup *)

Lemma append_empty (a b : string) : a +:+ b = "" → a = "" ∧ b = "".
Proof. by destruct a. Qed.

Lemma join_nonempty (a b : string) : b ≠ "" → PyStr.join a b ≠ "".
Proof.
  intros Hb. unfold PyStr.join.
  destruct (PyStr.startswith b "/"); [done |].
  destruct (_ || _); intros [? ?]%append_empty; [done |].
  by destruct b.
Qed.

Lemma replace_of_empty (old new : string) :
  old ≠ "" → PyStr.replace "" old new = "".
Proof. by destruct old. Qed.

Lemma elem_of_paths_of (top name : string) (l : list string) :
  name ∈ l → name ≠ "" → PyStr.join top name ∈ paths_of top l.
Proof.
  intros Hin Hne. unfold paths_of. apply elem_of_list_to_set.
  apply list_elem_of_fmap_2. by apply list_elem_of_filter.
Qed.

Lemma elem_of_snapshot_of (k : kind) (y : yielded) (ys : list yielded)
    (p : string) :
  y ∈ ys → p ∈ st_get k (yield_snapshot y) → p ∈ st_get k (snapshot_of ys).
Proof.
  induction 1 as [y ys|y y' ys Hin IH]; rewrite snapshot_of_cons; intros Hp.
  - apply elem_of_union. by left.
  - apply elem_of_union. right. by apply IH.
Qed.

(** The baseline is seeded at startup by the walk of the replica,
    each path put into the namespace of the source. Take a file the
    walk of the replica meets, whose baseline path maps back to the
    file, and which is not in the snapshot of the source that the first
    cycle stores: at the end of the first cycle the file is gone from
    the replica. And whatever that cycle copies was not in the replica
    at startup: contents already there are not copied again. *)
Theorem stale_file_removed (fuel fuel' : nat) (w0 w1 w2 : world)
    (yr : list yielded) (top name : string) (dirs nondirs : list string) :
  aliased w0 → replica_snapshot w0 = empty_state →
  source_directory_path w0 ≠ "" →
  run_initial fuel w0 = Ok tt w1 →
  check_folder_state fuel' (source_directory_path w1)
    (source_folder_state w1) false w1 = Ok tt w2 →
  scan fuel [replica_directory_path w0] w0 = Ok yr w0 →
  (top, dirs, nondirs) ∈ yr → name ∈ nondirs → name ≠ "" →
  mapped w0 (to_source w0 (PyStr.join top name)) = PyStr.join top name →
  to_source w0 (PyStr.join top name) ∉ st_files (replica_snapshot w2) →
  path_exists w2 (PyStr.join top name) = false ∧
  ∃ evs, trace w2 = trace w0 ++ (LogInfo MsgRunning :: evs) ∧
         ∀ k n rap, LogInfo (MsgNew k n rap) ∈ evs →
                    path_exists w0 rap = false.
Proof.
  intros Hal Hempty Hsrc Hinit Hcycle Hscan Hy Hname Hne Hback Habsent.
  set (rp := PyStr.join top name) in *. set (p := to_source w0 rp) in *.
  apply run_initial_spec in Hinit
    as (yr' & Hscan' & Hbase & Hready & Henv & Hdisk & Htrace); [|done|done].
  rewrite Hscan in Hscan'. injection Hscan' as <-.
  apply cycle_parts in Hcycle
    as (ys & w1' & w2' & Hw & Hstep & Hsnap & _ & Hdel & -> & Hrep & _);
    [|done].
  assert (Hp : p ∈ st_files (replica_snapshot w1)).
  { rewrite Hbase. cbn [st_map st_files]. apply elem_of_map_2.
    apply (elem_of_snapshot_of files (top, dirs, nondirs)); [done |].
    by apply elem_of_paths_of. }
  assert (Hp0 : p ≠ "").
  { intros Hp0. rewrite Hp0 in Hback. unfold mapped in Hback.
    rewrite replace_of_empty in Hback by done.
    symmetry in Hback. by apply join_nonempty in Hback. }
  rewrite Hrep in Habsent.
  assert (Henv1 : same_env w0 w1') by (eapply same_env_trans; [done | apply Hstep]).
  split.
  - rewrite <- Hback, <- (mapped_env w0 w1') by done.
    change (path_exists (rotated w2')) with (path_exists w2').
    apply (ds_gone _ _ _ Hdel). split; [|done]. right.
    apply elem_of_difference. done.
  - destruct (ws_trace _ _ _ Hstep) as (evs1 & Ht1 & F1).
    destruct (ds_trace _ _ _ Hdel) as (evs2 & Ht2 & F2).
    exists (evs1 ++ evs2). split.
    + cbn. rewrite Ht2, Ht1, Htrace. by rewrite <- !app_assoc.
    + intros k n rap [Hin|Hin]%elem_of_app.
      * rewrite Forall_forall in F1.
        destruct (F1 _ Hin) as (k' & n' & q & [= -> -> ->] & _ & Hx).
        rewrite <- Hx. symmetry. apply path_exists_ext; [apply Henv | done].
      * rewrite Forall_forall in F2.
        destruct (F2 _ Hin) as (k' & q & [=] & _).
Qed.

(** * Further properties of the code *)

End Properties.

(** * The properties on the sample worlds *)

Section Samples.
Local Existing Instance sample_runtime.
Import Sample.

(** A check over all the paths of a computed snapshot. *)
Lemma all_present (w : world) (S : folder_state) :
  (∀ k, forallb (λ p, path_exists w (mapped w p)) (elements (st_get k S))
        = true) →
  ∀ k p, p ∈ st_get k S → path_exists w (mapped w p) = true.
Proof.
  intros H k p Hp. specialize (H k). rewrite forallb_forall in H.
  apply H, list_elem_of_In, elem_of_elements, Hp.
Qed.

Lemma elem_by_computation (x : string) (X : gset string) :
  bool_decide (x ∈ X) = true → x ∈ X.
Proof. apply bool_decide_eq_true_1. Qed.

Lemma not_elem_by_computation (x : string) (X : gset string) :
  bool_decide (x ∈ X) = false → x ∉ X.
Proof. apply bool_decide_eq_false_1. Qed.

Lemma started_ready (src rep log : string) (base : folder_state)
    (d : gmap (list string) entry) :
  ready (started src rep log base d).
Proof. unfold ready, distinct_refs, source_snapshot. cbn. repeat split; lia. Qed.

Lemma configured_aliased (src rep log : string) (d : gmap (list string) entry) :
  aliased (configured src rep log d).
Proof. unfold aliased. cbn. split; [done | lia]. Qed.

Lemma configured_empty (src rep log : string) (d : gmap (list string) entry) :
  replica_snapshot (configured src rep log d) = empty_state.
Proof. reflexivity. Qed.

(** The sample worlds are the ones the program reaches. *)
Example startup_reaches_configured :
  bind (set_arguments ["/src"; "/replica"; "5"; "/log"]) (λ _, create_log_file)
    (initial_world disk_stale ["home"])
  = Ok tt stale_configured.
Proof. vm_compute. reflexivity. Qed.

Example startup_reaches_started :
  init ["/src"; "/replica"; "5"; "/log"] 10 0 (initial_world disk_stale ["home"])
  = Ok tt stale_started.
Proof. vm_compute. reflexivity. Qed.

Example startup_reaches_kinds :
  init ["/src"; "/replica"; "5"; "/log"] 10 0 (initial_world disk_kinds ["home"])
  = Ok tt kinds_started.
Proof. vm_compute. reflexivity. Qed.

Example stale_cycle :
  check_folder_state 10 "/src" 3 false stale_started = Ok tt stale_after.
Proof. vm_compute. reflexivity. Qed.

Example stale_walk :
  os_walk_for 10 ["/src"] (walk_body 3 false) stale_started
  = Ok stale_yields stale_walked.
Proof. vm_compute. reflexivity. Qed.

Example stale_initial : run_initial 10 stale_configured = Ok tt stale_started.
Proof. vm_compute. reflexivity. Qed.

Example fresh_initial : run_initial 10 fresh_configured = Ok tt fresh_started.
Proof. vm_compute. reflexivity. Qed.

Example fresh_cycle :
  check_folder_state 10 "/src" 3 false fresh_started = Ok tt fresh_after.
Proof. vm_compute. reflexivity. Qed.

Example fresh_scan : scan 10 ["/src"] fresh_after = Ok fresh_yields fresh_after.
Proof. vm_compute. reflexivity. Qed.

Example kinds_cycle :
  check_folder_state 10 "/src" 3 false kinds_started = Ok tt kinds_after.
Proof. vm_compute. reflexivity. Qed.

Example kinds_cycle_two :
  check_folder_state 10 "/src" 4 false kinds_after = Ok tt kinds_after_two.
Proof. vm_compute. reflexivity. Qed.

(** Scenarios 1 to 3 of the specification in one run: a file and a
    folder are copied, the stale file is deleted. *)
Example first_cycle_on_stale_replica :
  disk stale_after !! ["replica"; "a.txt"] = Some (File "A") ∧
  disk stale_after !! ["replica"; "d"; "f.txt"] = Some (File "F") ∧
  disk stale_after !! ["replica"; "old.txt"] = None ∧
  trace stale_after
  = [LogInfo MsgRunning;
     LogInfo (MsgNew folders "d" "/replica/d");
     LogInfo (MsgNew files "a.txt" "/replica/a.txt");
     LogInfo (MsgDeleted files "old.txt" "/replica/old.txt")].
Proof. vm_compute. repeat split. Qed.

(** ** C1 *)


(** ** C2 *)

(** C2 fails on the code. With the relative roots [in] and [out],
    [make_copy] maps the source file [in/output.txt] to
    [out/output.txt], and [get_absolute_path] maps that replica path
    back to [in/input.txt]: the occurrence of [out] in the file name is
    replaced as well. *)
Theorem round_trip_loses_path :
  mapped relative_configured (PyStr.join "in" "output.txt") = "out/output.txt" ∧
  get_absolute_path "out" "output.txt" relative_configured
  = Ok "in/input.txt" relative_configured ∧
  "in/input.txt" ≠ PyStr.join "in" "output.txt".
Proof. vm_compute. repeat split. discriminate. Qed.

(** ** C3 *)

(** C3 fails on the code. With the roots [in] and [out], the replica
    path [out/layout.css] is [out] followed by [/layout.css], and
    [get_absolute_path] returns [in/layin.css], not [in] followed by
    [/layout.css]; the mapping of [delete_files] sends [in/main.py] to
    [out/maout.py]. *)
Theorem mapping_rewrites_suffix :
  PyStr.join "out" "layout.css" = "out" +:+ "/layout.css" ∧
  get_absolute_path "out" "layout.css" relative_configured
  = Ok "in/layin.css" relative_configured ∧
  "in/layin.css" ≠ "in" +:+ "/layout.css" ∧
  mapped relative_configured ("in" +:+ "/main.py") = "out/maout.py".
Proof. vm_compute. repeat split. discriminate. Qed.

(** ** C4 *)

(** C4 fails on the code. The source holds the file [x], the replica
    the folder [x], known to the baseline. The first cycle does not
    copy the file, since [/replica/x] exists, and deletes the folder;
    the second cycle, on the same source, copies the file. *)
Lemma second_cycle_mutates :
  check_folder_state 10 "/src" 3 false kinds_started = Ok tt kinds_after ∧
  scan 10 ["/src"] kinds_started = Ok [("/src", [], ["x"])] kinds_started ∧
  scan 10 ["/src"] kinds_after = Ok [("/src", [], ["x"])] kinds_after ∧
  check_folder_state 10 "/src" 4 false kinds_after = Ok tt kinds_after_two ∧
  disk kinds_after !! ["replica"; "x"] = None ∧
  disk kinds_after_two !! ["replica"; "x"] = Some (File "X") ∧
  trace kinds_after_two
  = trace kinds_after ++ [LogInfo (MsgNew files "x" "/replica/x")] ∧
  logged_since kinds_started kinds_after
  = [LogInfo (MsgDeleted folders "x" "/replica/x")] ∧
  mapped kinds_started "/src/x" = "/replica/x".
Proof. vm_compute. repeat split. Qed.

(** A check over what a cycle logged as deleted and the paths of a
    computed snapshot. *)
Lemma cleared_by_computation (w0 w1 : world) (S : folder_state) :
  forallb (λ ev,
            match ev with
            | LogInfo (MsgDeleted _ _ rap) =>
                forallb (λ p,
                          forallb (λ t, bool_decide
                                          (strip_prefix (key_of w0 rap) t = None))
                                  (route w0 (mapped w0 p)))
                        (elements (st_folders S) ++ elements (st_files S))
            | _ => true
            end)
          (logged_since w0 w1) = true →
  ∀ k n rap k' p t,
    LogInfo (MsgDeleted k n rap) ∈ logged_since w0 w1 →
    p ∈ st_get k' S → t ∈ route w0 (mapped w0 p) →
    strip_prefix (key_of w0 rap) t = None.
Proof.
  intros H k n rap k' p t Hin Hp Ht.
  rewrite forallb_forall in H.
  specialize (H _ (proj1 (list_elem_of_In _ _) Hin)). cbn in H.
  rewrite forallb_forall in H.
  assert (Hp' : In p (elements (st_folders S) ++ elements (st_files S))).
  { apply in_or_app.
    destruct k'; [left | right]; apply list_elem_of_In, elem_of_elements, Hp. }
  specialize (H _ Hp'). rewrite forallb_forall in H.
  specialize (H _ (proj1 (list_elem_of_In _ _) Ht)).
  by apply bool_decide_eq_true_1 in H.
Qed.

(** The first cycle on [stale_started] copies a file and a folder and
    deletes [/replica/old.txt]; the second changes nothing. *)
Lemma second_cycle_quiet_witness :
  ready stale_started ∧
  check_folder_state 10 "/src" 3 false stale_started = Ok tt stale_after ∧
  scan 10 ["/src"] stale_after = Ok stale_yields_again stale_after ∧
  snapshot_of stale_yields_again = replica_snapshot stale_after ∧
  logged_since stale_started stale_after
  = [LogInfo (MsgNew folders "d" "/replica/d");
     LogInfo (MsgNew files "a.txt" "/replica/a.txt");
     LogInfo (MsgDeleted files "old.txt" "/replica/old.txt")] ∧
  ∃ w2, check_folder_state 10 "/src" 4 false stale_after = Ok tt w2 ∧
        disk w2 = disk stale_after ∧ trace w2 = trace stale_after.
Proof.
  split; [apply started_ready |]. split; [vm_compute; reflexivity |].
  split; [vm_compute; reflexivity |]. split; [vm_compute; reflexivity |].
  split; [vm_compute; reflexivity |].
  apply (second_cycle_quiet 10 10 stale_started stale_after stale_yields_again).
  - apply started_ready.
  - vm_compute; reflexivity.
  - vm_compute; reflexivity.
  - vm_compute; reflexivity.
  - apply cleared_by_computation. vm_compute; reflexivity.
Defined.

(** ** C5 *)

(** C5 fails on the code. The replica [out] holds [notes_in.txt], the
    source [in] is empty. Startup puts [in/notes_in.txt] into the
    baseline. In the first cycle the path is in the set of deleted
    files, but [delete_files] maps it to [out/notes_out.txt], which
    does not exist, and does nothing: the file is still in the replica
    when the cycle ends, and no deletion is logged. *)
Theorem stale_file_survives :
  init ["in"; "out"; "5"; "log"] 10 0 (initial_world disk_clash ["home"])
  = Ok tt clash_started ∧
  run_initial 10 clash_configured = Ok tt clash_started ∧
  scan 10 ["out"] clash_configured
  = Ok [("out", [], ["notes_in.txt"])] clash_configured ∧
  scan 10 ["in"] clash_started = Ok [("in", [], [])] clash_started ∧
  replica_snapshot clash_started = FolderState ∅ {["in/notes_in.txt"]} ∧
  mapped clash_started "in/notes_in.txt" = "out/notes_out.txt" ∧
  check_folder_state 10 "in" 3 false clash_started = Ok tt clash_after ∧
  path_exists clash_after "out/notes_in.txt" = true ∧
  trace clash_after = [LogInfo MsgRunning].
Proof. vm_compute. repeat split. Qed.

(** Where the mapping goes back to the file, the file is removed. *)
Example stale_file_removed_on_sample :
  run_initial 10 stale_configured = Ok tt stale_started ∧
  check_folder_state 10 "/src" 3 false stale_started = Ok tt stale_after ∧
  scan 10 ["/replica"] stale_configured
  = Ok [("/replica", [], ["old.txt"])] stale_configured ∧
  path_exists stale_configured "/replica/old.txt" = true ∧
  path_exists stale_after (PyStr.join "/replica" "old.txt") = false ∧
  ∃ evs, trace stale_after
         = trace stale_configured ++ (LogInfo MsgRunning :: evs) ∧
         ∀ k n rap, LogInfo (MsgNew k n rap) ∈ evs →
                    path_exists stale_configured rap = false.
Proof.
  split; [vm_compute; reflexivity |]. split; [vm_compute; reflexivity |].
  split; [vm_compute; reflexivity |]. split; [vm_compute; reflexivity |].
  apply (stale_file_removed 10 10 stale_configured stale_started stale_after
           [("/replica", [], ["old.txt"])] "/replica" "old.txt" [] ["old.txt"]).
  - apply configured_aliased.
  - reflexivity.
  - discriminate.
  - vm_compute; reflexivity.
  - vm_compute; reflexivity.
  - vm_compute; reflexivity.
  - constructor.
  - constructor.
  - discriminate.
  - vm_compute; reflexivity.
  - apply not_elem_by_computation. vm_compute; reflexivity.
Defined.

(** ** C6 *)

(** C6 fails on the code. The source [in] holds the folder [d] with
    the file [main.py] in it, the replica [out] is empty. The walk
    meets the folder first: [make_copy] copies it, and [out/d/main.py]
    is there. Then the walk meets the file in [in/d]. Its replica path
    exists, made by the folder copy, but [make_copy] looks at
    [out/d/maout.py], the path with every occurrence of [in] replaced,
    finds nothing there, and copies the file a second time, to that
    path. *)
Theorem nested_file_copied_twice :
  init ["in"; "out"; "5"; "log"] 10 0 (initial_world disk_nested ["home"])
  = Ok tt nested_started ∧
  scan 10 ["in"] nested_started
  = Ok [("in", ["d"], []); ("in/d", [], ["main.py"])] nested_started ∧
  make_copy "in" "d" folders nested_started = Ok tt nested_folder_copied ∧
  path_exists nested_started "out/d/main.py" = false ∧
  path_exists nested_folder_copied "out/d/main.py" = true ∧
  mapped nested_started (PyStr.join "in/d" "main.py") = "out/d/maout.py" ∧
  check_folder_state 10 "in" 3 false nested_started = Ok tt nested_after ∧
  disk nested_after !! ["home"; "out"; "d"; "main.py"] = Some (File "M") ∧
  disk nested_after !! ["home"; "out"; "d"; "maout.py"] = Some (File "M") ∧
  trace nested_after
  = [LogInfo MsgRunning;
     LogInfo (MsgNew folders "d" "out/d");
     LogInfo (MsgNew files "main.py" "out/d/maout.py")].
Proof. vm_compute. repeat split. Qed.

(** With roots whose text does not occur in the names, the file in the
    folder is met, found, and not copied again. *)
Example nested_file_on_clean_names :
  run_initial 10 fresh_configured = Ok tt fresh_started ∧
  check_folder_state 10 "/src" 3 false fresh_started = Ok tt fresh_after ∧
  disk fresh_after !! ["replica"; "d"; "f.txt"] = Some (File "F") ∧
  trace fresh_after
  = [LogInfo MsgRunning; LogInfo (MsgNew folders "d" "/replica/d");
     LogInfo (MsgNew files "a.txt" "/replica/a.txt")].
Proof. vm_compute. repeat split. Qed.

(** ** C7 *)

(** C7 fails on the code. [/missing] does not exist; the collecting
    call on it ends normally, whatever the fuel, and raises nothing. *)
Lemma missing_root_not_raised :
  stat stale_configured "/missing" = None ∧
  check_folder_state 1 "/missing" 2 true stale_configured
  = Ok tt (rotated stale_configured) ∧
  ∀ e w', check_folder_state 1 "/missing" 2 true stale_configured
          ≠ Raised e w'.
Proof.
  split; [vm_compute; reflexivity |].
  assert (H : check_folder_state 1 "/missing" 2 true stale_configured
              = Ok tt (rotated stale_configured)) by (vm_compute; reflexivity).
  split; [exact H |]. intros e w'. rewrite H. discriminate.
Qed.

Lemma walk_of_missing_root_witness :
  stat stale_configured "/missing" ≠ Some Dir ∧
  (∀ body, os_walk_for 1 ["/missing"] body stale_configured
           = Ok [] stale_configured) ∧
  check_folder_state 1 "/missing" 2 true stale_configured
  = Ok tt (rotated stale_configured).
Proof.
  assert (H : stat stale_configured "/missing" ≠ Some Dir)
    by (vm_compute; discriminate).
  split; [exact H |].
  destruct (walk_of_missing_root 0 "/missing" stale_configured H) as [Hw Hc].
  split; [exact Hw |]. apply Hc. apply configured_aliased.
Defined.

(** ** C8 *)

(** C8 fails on the code. In the cycle on [stale_started] the dict of
    the replica snapshot is changed during the walk, in place, when
    [a.txt] is copied, and the attribute is set to another dict at the
    end: the snapshot changes twice. *)
Lemma replica_snapshot_changes_twice :
  os_walk_for 10 ["/src"] (walk_body 3 false) stale_started
  = Ok stale_yields stale_walked ∧
  replica_folder_state stale_walked = replica_folder_state stale_started ∧
  ("/src/a.txt" ∉ st_files (replica_snapshot stale_started)) ∧
  "/src/a.txt" ∈ st_files (replica_snapshot stale_walked) ∧
  "/src/old.txt" ∈ st_files (replica_snapshot stale_walked) ∧
  check_folder_state 10 "/src" 3 false stale_started = Ok tt stale_after ∧
  "/src/old.txt" ∉ st_files (replica_snapshot stale_after).
Proof.
  split; [vm_compute; reflexivity |]. split; [reflexivity |].
  split; [apply not_elem_by_computation; vm_compute; reflexivity |].
  split; [apply elem_by_computation; vm_compute; reflexivity |].
  split; [apply elem_by_computation; vm_compute; reflexivity |].
  split; [vm_compute; reflexivity |].
  apply not_elem_by_computation; vm_compute; reflexivity.
Qed.

Lemma baseline_rotation_witness :
  ready stale_started ∧
  check_folder_state 10 "/src" 3 false stale_started = Ok tt stale_after ∧
  ∃ ys w1,
    os_walk_for 10 ["/src"] (walk_body 3 false) stale_started = Ok ys w1 ∧
    replica_snapshot stale_after = snapshot_of ys ∧
    replica_folder_state stale_after = source_folder_state stale_started ∧
    source_snapshot stale_after = empty_state.
Proof.
  split; [apply started_ready |]. split; [vm_compute; reflexivity |].
  destruct (baseline_rotation 10 "/src" 3 stale_started stale_after tt)
    as (ys & w1 & Hw & Hrep & Hptr & Hsrc & _);
    [apply started_ready | vm_compute; reflexivity |].
  exists ys, w1. exact (conj Hw (conj Hrep (conj Hptr Hsrc))).
Defined.

(** ** C9 *)




(** ** C10 *)


(** The same for a product and for zero; a sleep of zero seconds is a
    sleep. *)
Example interval_product_and_zero :
  check_arguments ["/src"; "/replica"; "2*3"; "/log"]
    (initial_world disk_stale ["home"])
  = Ok ("/src", "/replica", SampleNumbers.six, "/log")
       (initial_world disk_stale ["home"]) ∧
  check_arguments ["/src"; "/replica"; "0"; "/log"]
    (initial_world disk_stale ["home"])
  = Ok ("/src", "/replica", PyFloat.zero, "/log")
       (initial_world disk_stale ["home"]) ∧
  (∃ w, init ["/src"; "/replica"; "0"; "/log"] 10 1
          (initial_world disk_stale ["home"]) = Ok tt w ∧
        List.last (trace w) (LogInfo MsgStopped) = Sleep PyFloat.zero) ∧
  ∃ w, init ["/src"; "/replica"; "-5"; "/log"] 10 1
         (initial_world disk_stale ["home"]) = Raised ValueError w.
Proof.
  split; [vm_compute; reflexivity |]. split; [vm_compute; reflexivity |].
  split; eexists; [split |]; vm_compute; reflexivity.
Qed.

End Samples.
